(** * sqlitexx: a shallow embedding of the header-only SQLite wrapper

    The wrapper of [include/sqlitexx.h] owns no logic of its own besides the
    order in which it calls the engine, the way it interprets the integer
    result codes, and the two private fields of [Transaction].  The engine is
    therefore kept abstract: it is an oracle that answers every call as a
    function of the calls made before it, and the wrapper's methods are
    programs in a small state-and-exception monad whose state carries the
    chronological log of engine calls. *)

From Stdlib Require Import ZArith String Ascii List Bool DecimalString Lia.
Import ListNotations.

Open Scope string_scope.
Open Scope Z_scope.

(** ** Machine integers and C strings *)

(** Conversion of an integral value to [int] (32 bits, two's complement). *)
Definition to_int (z : Z) : Z := (z + 2 ^ 31) mod 2 ^ 32 - 2 ^ 31.

(** Conversion to [unsigned] (32 bits). *)
Definition to_unsigned (z : Z) : Z := z mod 2 ^ 32.

(** Conversion to [size_t] (64 bits). *)
Definition to_size_t (z : Z) : Z := z mod 2 ^ 64.

(** A [double] is passed through the wrapper untouched: its 64 bits. *)
Definition double := Z.

(** Pointers are addresses; [nullptr] is address 0. *)
Definition ptr := Z.
Definition nullptr : ptr := 0.
Definition is_null (p : ptr) : bool := p =? nullptr.

Definition NUL : ascii := Ascii.zero.

(** [std::string::size()]. *)
Definition size (s : string) : Z := Z.of_nat (String.length s).

(** What a reader of [s.c_str()] sees when it stops at the terminator: the
    characters in front of the first zero byte. *)
Fixpoint c_str (s : string) : string :=
  match s with
  | EmptyString => EmptyString
  | String c s' => if Ascii.eqb c NUL then EmptyString else String c (c_str s')
  end.

(** Does the byte region contain a zero byte? *)
Fixpoint has_nul (s : string) : bool :=
  match s with
  | EmptyString => false
  | String c s' => Ascii.eqb c NUL || has_nul s'
  end.

(** ** Constants of [sqlite3.h]

    The values are fixed by the SQLite C interface. *)
Definition SQLITE_OK : Z := 0.
Definition SQLITE_ERROR : Z := 1.
Definition SQLITE_BUSY : Z := 5.
Definition SQLITE_MISUSE : Z := 21.
Definition SQLITE_ROW : Z := 100.
Definition SQLITE_DONE : Z := 101.

Definition SQLITE_INTEGER : Z := 1.
Definition SQLITE_FLOAT : Z := 2.
Definition SQLITE_TEXT : Z := 3.
Definition SQLITE_BLOB : Z := 4.
Definition SQLITE_NULL : Z := 5.

(** ** The engine as an oracle over the call history *)

(** The entry points of the engine that the wrapper uses, with the arguments
    the wrapper passes. *)
Inductive call : Type :=
| sqlite3_prepare_v2 (db : ptr) (zSql : string) (nByte : Z)
| sqlite3_step (stmt : ptr)
| sqlite3_finalize (stmt : ptr)
| sqlite3_bind_text (stmt : ptr) (pos : Z) (data : string) (n : Z)
| sqlite3_bind_int (stmt : ptr) (pos : Z) (x : Z)
| sqlite3_bind_int64 (stmt : ptr) (pos : Z) (x : Z)
| sqlite3_bind_null (stmt : ptr) (pos : Z)
| sqlite3_bind_double (stmt : ptr) (pos : Z) (x : double)
| sqlite3_bind_parameter_index (stmt : ptr) (zName : string)
| sqlite3_column_count (stmt : ptr)
| sqlite3_column_type (stmt : ptr) (iCol : Z)
| sqlite3_column_int64 (stmt : ptr) (iCol : Z)
| sqlite3_column_double (stmt : ptr) (iCol : Z)
| sqlite3_column_text (stmt : ptr) (iCol : Z)
| sqlite3_column_blob (stmt : ptr) (iCol : Z)
| sqlite3_column_bytes (stmt : ptr) (iCol : Z).

(** What each entry point hands back.  [sqlite3_prepare_v2] gives a result
    code and the statement handle it stored through its out-parameter.  The
    two pointer-returning column readers give [None] for a null pointer and
    otherwise the bytes that can be read through the pointer (for
    [sqlite3_column_text] this region ends with the terminator the engine
    appends). *)
Definition reply_of (c : call) : Type :=
  match c with
  | sqlite3_prepare_v2 _ _ _ => (Z * ptr)%type
  | sqlite3_column_text _ _ | sqlite3_column_blob _ _ => option string
  | sqlite3_column_double _ _ => double
  | _ => Z
  end.

(** The world: a deterministic engine, which answers a call from the calls
    that came before, and the calls made so far, oldest first. *)
Record world : Type := World {
  engine : list call -> forall c : call, reply_of c;
  log : list call
}.

(** ** Exceptions, outcomes and the monad *)

(** [sqlitexx::Error]: a [std::runtime_error] with the engine's code.
    [what] is the message as [what()] gives it. *)
Record Error : Type := mkError { code : Z; what : string }.

(** How running a piece of the wrapper ends.  The state is kept on a throw,
    since a thrown-from object lives on with whatever fields it had. *)
Inductive outcome (S A : Type) : Type :=
| Returns (a : A) (s : S)
| Throws (e : Error) (s : S)
| Undefined              (* the C++ program has undefined behaviour *)
| OutOfFuel.             (* the loop bound of the model was reached *)

Arguments Returns {S A} a s.
Arguments Throws {S A} e s.
Arguments Undefined {S A}.
Arguments OutOfFuel {S A}.

Definition M (S A : Type) : Type := S -> outcome S A.

Definition ret {S A} (a : A) : M S A := fun s => Returns a s.

Definition throw {S A} (e : Error) : M S A := fun s => Throws e s.

Definition undefined {S A} : M S A := fun _ => Undefined.

Definition bind {S A B} (m : M S A) (k : A -> M S B) : M S B :=
  fun s =>
    match m s with
    | Returns a s' => k a s'
    | Throws e s' => Throws e s'
    | Undefined => Undefined
    | OutOfFuel => OutOfFuel
    end.

Declare Scope monad_scope.
Delimit Scope monad_scope with monad.
Notation "x <- m ;; k" := (bind m (fun x => k))
  (at level 61, m at next level, right associativity) : monad_scope.
Notation "m ;;; k" := (bind m (fun _ => k))
  (at level 61, right associativity) : monad_scope.
Open Scope monad_scope.

(** One call of the engine: the oracle answers from the history ([answer]),
    and the call is appended to the log ([after]). *)
Definition answer (w : world) (c : call) : reply_of c := engine w (log w) c.

Definition after (w : world) (c : call) : world :=
  World (engine w) (log w ++ [c])%list.

Definition sqlite3 (c : call) : M world (reply_of c) :=
  fun w => Returns (answer w c) (after w c).

(** [std::string{data}]: read up to the terminator.  Reading a region without
    one runs off its end. *)
Definition string_of_cstr {S} (data : string) : M S string :=
  if has_nul data then ret (c_str data) else undefined.

(** [std::string{data, len}]: read exactly [len] bytes. *)
Definition string_of_ptr_len {S} (data : string) (len : Z) : M S string :=
  if len <=? size data then ret (substring 0 (Z.to_nat len) data) else undefined.

(** The result code of the latest [sqlite3_step] on [stmt] in a history, if
    there was one.  [before] is the part of the history already scanned. *)
Fixpoint last_step (eng : list call -> forall c : call, reply_of c)
    (stmt : ptr) (before rest : list call) (acc : option Z) : option Z :=
  match rest with
  | [] => acc
  | c :: rest' =>
      let acc' :=
        match c as c0 return reply_of c0 -> option Z with
        | sqlite3_step s => fun res => if s =? stmt then Some res else acc
        | _ => fun _ => acc
        end (eng before c) in
      last_step eng stmt (before ++ [c])%list rest' acc'
  end.

(** A row is positioned on [stmt] when its latest step answered
    [SQLITE_ROW]. *)
Definition positioned (w : world) (stmt : ptr) : bool :=
  match last_step (engine w) stmt [] (log w) None with
  | Some res => res =? SQLITE_ROW
  | None => false
  end.

(** ** [Statement::Value] *)

Module Value.

Record t : Type := mk { stmt_ : ptr; index_ : Z }.

(** The default constructor: [stmt_ = nullptr], [index_ = 0]. *)
Definition default : t := mk nullptr 0.

Definition get (this : t) : ptr := stmt_ this.

Definition type (this : t) : M world Z :=
  sqlite3 (sqlite3_column_type (stmt_ this) (to_int (index_ this))).

Definition is_int (this : t) : M world bool :=
  ty <- type this ;; ret (ty =? SQLITE_INTEGER).

Definition as_int (this : t) : M world Z :=
  sqlite3 (sqlite3_column_int64 (stmt_ this) (to_int (index_ this))).

Definition is_double (this : t) : M world bool :=
  ty <- type this ;; ret (ty =? SQLITE_FLOAT).

Definition as_double (this : t) : M world double :=
  sqlite3 (sqlite3_column_double (stmt_ this) (to_int (index_ this))).

Definition is_text (this : t) : M world bool :=
  ty <- type this ;; ret (ty =? SQLITE_TEXT).

Definition is_blob (this : t) : M world bool :=
  ty <- type this ;; ret (ty =? SQLITE_BLOB).

Definition as_text (this : t) : M world string :=
  data <- sqlite3 (sqlite3_column_text (stmt_ this) (to_int (index_ this))) ;;
  match data with
  | None => ret ""
  | Some data =>
      txt <- is_text this ;;
      (* [||] evaluates its right operand only when the left one is false *)
      either <- (if txt then ret true else is_blob this) ;;
      if either : bool then
        len <- sqlite3 (sqlite3_column_bytes (stmt_ this) (to_int (index_ this))) ;;
        string_of_ptr_len data (to_size_t len)
      else
        string_of_cstr data
  end.

Definition as_blob (this : t) : M world string :=
  data <- sqlite3 (sqlite3_column_blob (stmt_ this) (to_int (index_ this))) ;;
  match data with
  | None => ret ""
  | Some data =>
      len <- sqlite3 (sqlite3_column_bytes (stmt_ this) (to_int (index_ this))) ;;
      string_of_ptr_len data (to_size_t len)
  end.

End Value.

(** ** [Statement] *)

Module Statement.

(** The only field is the owning pointer to the prepared statement. *)
Record t : Type := mk { stmt_ : ptr }.

(** The overload set of [bind(unsigned, _)], one constructor per overload. *)
Inductive value : Type :=
| of_string (value : string)
| of_bool (x : bool)
| of_int32 (x : Z)
| of_int64 (x : Z)
| of_nullptr
| of_double (x : double).

(** The decimal digits [operator<<] prints for an [unsigned]. *)
Definition decimal (n : Z) : string :=
  NilEmpty.string_of_uint (N.to_uint (Z.to_N n)).

Definition check_bind (msg : string) (res : Z) : M world unit :=
  if negb (res =? SQLITE_OK) then throw (mkError res msg) else ret tt.

Definition bind (this : t) (pos : Z) (x : value) : M world unit :=
  match x with
  | of_string value =>
      res <- sqlite3 (sqlite3_bind_text (stmt_ this) (to_int pos)
                        value (to_int (size value))) ;;
      check_bind "bind failed" res
  | of_bool x =>
      res <- sqlite3 (sqlite3_bind_int (stmt_ this) (to_int pos)
                        (if x then 1 else 0)) ;;
      check_bind "bind failed" res
  | of_int32 x =>
      res <- sqlite3 (sqlite3_bind_int (stmt_ this) (to_int pos) x) ;;
      check_bind "bind failed" res
  | of_int64 x =>
      res <- sqlite3 (sqlite3_bind_int64 (stmt_ this) (to_int pos) x) ;;
      check_bind "bind failed" res
  | of_nullptr =>
      res <- sqlite3 (sqlite3_bind_null (stmt_ this) (to_int pos)) ;;
      check_bind "bind failed: " res
  | of_double x =>
      res <- sqlite3 (sqlite3_bind_double (stmt_ this) (to_int pos) x) ;;
      check_bind "bind failed" res
  end.

(** [bind(const std::string& argname, T&& x)].  The message of the [Error]
    is built from [argname], so it is the one message of the wrapper that
    can hold a zero byte; [what()] hands it out as a C string, which ends
    there. *)
Definition bind_name (this : t) (argname : string) (x : value) : M world unit :=
  n <- sqlite3 (sqlite3_bind_parameter_index (stmt_ this) (c_str argname)) ;;
  if n =? 0 then
    throw (mkError SQLITE_ERROR
             (c_str ("unknown parameter name '" ++ argname ++ "'")))
  else
    bind this (to_unsigned n) x.

Definition exec (this : t) : M world string :=
  res <- sqlite3 (sqlite3_step (stmt_ this)) ;;
  if res =? SQLITE_DONE then ret ""
  else if res =? SQLITE_ROW then
    n <- sqlite3 (sqlite3_column_count (stmt_ this)) ;;
    if negb (n =? 0) then
      data <- sqlite3 (sqlite3_column_text (stmt_ this) 0) ;;
      match data with
      | None => ret ""
      | Some data => string_of_cstr data
      end
    else ret ""
  else throw (mkError res "execution failed").

(** [operator[](unsigned idx)]. *)
Definition operator_subscript (this : t) (idx : Z) : M world Value.t :=
  let out_of_range :=
    throw (mkError SQLITE_ERROR
             ("column index " ++ decimal idx ++ " is out of range")) in
  if is_null (stmt_ this) then out_of_range
  else
    n <- sqlite3 (sqlite3_column_count (stmt_ this)) ;;
    if to_int idx >=? n then out_of_range
    else ret (Value.mk (stmt_ this) idx).

Definition size (this : t) : M world Z :=
  n <- sqlite3 (sqlite3_column_count (stmt_ this)) ;; ret (to_size_t n).

Definition step (this : t) : M world bool :=
  res <- sqlite3 (sqlite3_step (stmt_ this)) ;;
  if res =? SQLITE_ROW then ret true
  else if res =? SQLITE_DONE then ret false
  else throw (mkError res "execution failed").

(** [Statement::iterator]: a reference to the statement and a flag. *)
Record iterator : Type := mk_iterator { stmt : t; the_end : bool }.

Definition operator_star (it : iterator) : t := stmt it.

Definition operator_incr (it : iterator) : M world iterator :=
  more <- step (stmt it) ;;
  if negb more then ret (mk_iterator (stmt it) true) else ret it.

Definition operator_eq (this it : iterator) : bool :=
  the_end it && the_end this.

Definition operator_neq (this it : iterator) : bool :=
  negb (operator_eq this it).

Definition begin_ (this : t) : iterator := mk_iterator this false.

Definition end_ (this : t) : iterator := mk_iterator this true.

(** The range-based [for (auto& row : st) body(row)], which the language
    defines as
    [for (auto b = st.begin(), e = st.end(); b != e; ++b) body( *b )].
    The result lists the worlds in which the body was entered, one per
    row handed to it, and says how the loop ended.  [fuel] bounds the
    number of times the body runs. *)
Fixpoint range_for_loop (body : t -> M world unit) (fuel : nat)
    (b e : iterator) (w : world) : list world * outcome world unit :=
  if operator_neq b e then
    match fuel with
    | O => ([], OutOfFuel)
    | S fuel' =>
        match (body (operator_star b) ;;; operator_incr b) w with
        | Returns b' w' =>
            let (rows, o) := range_for_loop body fuel' b' e w' in
            (w :: rows, o)
        | Throws err w' => ([w], Throws err w')
        | Undefined => ([w], Undefined)
        | OutOfFuel => ([w], OutOfFuel)
        end
    end
  else ([], Returns tt w).

Definition range_for (body : t -> M world unit) (fuel : nat) (this : t)
    (w : world) : list world * outcome world unit :=
  range_for_loop body fuel (begin_ this) (end_ this) w.

(** The reading the row sequence is compared with:
    [while (st.step()) body(st)], that is, [step()] called repeatedly and
    the row read after each [true]. *)
Fixpoint step_while (body : t -> M world unit) (fuel : nat) (this : t)
    (w : world) : list world * outcome world unit :=
  match step this w with
  | Returns true w1 =>
      match fuel with
      | O => ([], OutOfFuel)
      | S fuel' =>
          match body this w1 with
          | Returns _ w2 =>
              let (rows, o) := step_while body fuel' this w2 in
              (w1 :: rows, o)
          | Throws err w2 => ([w1], Throws err w2)
          | Undefined => ([w1], Undefined)
          | OutOfFuel => ([w1], OutOfFuel)
          end
      end
  | Returns false w1 => ([], Returns tt w1)
  | Throws err w1 => ([], Throws err w1)
  | Undefined => ([], Undefined)
  | OutOfFuel => ([], OutOfFuel)
  end.

End Statement.

(** ** [Transaction] *)

Module Transaction.

Record t : Type := mk { db_ : ptr; done_ : bool }.

(** The default member initializers: [db_ = nullptr], [done_ = false]. *)
Definition initial : t := mk nullptr false.

(** A method runs on the object and the world. *)
Definition state : Type := (t * world)%type.

(** Run an engine-only computation from inside a method. *)
Definition lift {A} (m : M world A) : M state A :=
  fun s =>
    match m (snd s) with
    | Returns a w' => Returns a (fst s, w')
    | Throws e w' => Throws e (fst s, w')
    | Undefined => Undefined
    | OutOfFuel => OutOfFuel
    end.

Definition this : M state t := fun s => Returns (fst s) s.

Definition set_done (b : bool) : M state unit :=
  fun s => Returns tt (mk (db_ (fst s)) b, snd s).

(** The private [exec(const char* sql)]: prepare, step once, finalize. *)
Definition exec (db : ptr) (sql : string) : M world Z :=
  r <- sqlite3 (sqlite3_prepare_v2 db sql (-1)) ;;
  let (res, stmt) := r : Z * ptr in
  if negb (res =? SQLITE_OK) then ret res
  else
    res <- sqlite3 (sqlite3_step stmt) ;;
    sqlite3 (sqlite3_finalize stmt) ;;;
    if negb (res =? SQLITE_DONE) then ret res
    else ret SQLITE_OK.

(** [try_commit(bool exc)]: the [for (;;)] loop, with [fuel] bounding the
    number of times COMMIT is issued. *)
Fixpoint try_commit (fuel : nat) (exc : bool) : M state bool :=
  match fuel with
  | O => fun _ => OutOfFuel
  | S fuel' =>
      self <- this ;;
      res <- lift (exec (db_ self) "COMMIT;") ;;
      if res =? SQLITE_OK then
        set_done true ;;; ret true
      else if negb (res =? SQLITE_BUSY) then
        if exc then throw (mkError res "commit failed")
        else ret false
      else try_commit fuel' exc
  end.

Definition commit (fuel : nat) : M state unit :=
  try_commit fuel true ;;; ret tt.

(** [~Transaction()]. *)
Definition destructor (fuel : nat) : M state unit :=
  try_commit fuel false ;;; ret tt.

Definition rollback : M state unit :=
  self <- this ;;
  res <- lift (exec (db_ self) "ROLLBACK;") ;;
  if negb (res =? SQLITE_OK) then throw (mkError res "rollback failed")
  else set_done true.

(** [Transaction(sqlite3* db)]: gives the new object, or throws. *)
Definition constructor (db : ptr) : M world t :=
  res <- exec db "BEGIN TRANSACTION;" ;;
  if negb (res =? SQLITE_OK) then
    throw (mkError res "can't begin transaction")
  else ret (mk db false).

(** A move involves two objects: the destination and the source. *)
Definition pair_state : Type := ((t * t) * world)%type.

(** Run a method of the destination. *)
Definition on_destination {A} (m : M state A) : M pair_state A :=
  fun s =>
    match m (fst (fst s), snd s) with
    | Returns a (dst, w') => Returns a ((dst, snd (fst s)), w')
    | Throws e (dst, w') => Throws e ((dst, snd (fst s)), w')
    | Undefined => Undefined
    | OutOfFuel => OutOfFuel
    end.

(** Run a method of the source. *)
Definition on_source {A} (m : M state A) : M pair_state A :=
  fun s =>
    match m (snd (fst s), snd s) with
    | Returns a (src, w') => Returns a ((fst (fst s), src), w')
    | Throws e (src, w') => Throws e ((fst (fst s), src), w')
    | Undefined => Undefined
    | OutOfFuel => OutOfFuel
    end.

(** The body shared by the move constructor and the move assignment. *)
Definition move_body (fuel : nat) : M pair_state unit :=
  dst <- on_destination this ;;
  (if negb (is_null (db_ dst)) && negb (done_ dst)
   then on_destination (commit fuel) else ret tt) ;;;
  fun s =>
    let src := snd (fst s) in
    Returns tt ((mk (db_ src) (done_ src), mk nullptr (done_ src)), snd s).

(** [operator=(Transaction&& t)] on an existing destination. *)
Definition move_assign (fuel : nat) : M pair_state unit := move_body fuel.

(** [Transaction(Transaction&& t)]: the destination starts from the default
    member initializers. *)
Definition move_constructor (fuel : nat) (src : t) (w : world)
    : outcome pair_state unit :=
  move_body fuel ((initial, src), w).

End Transaction.

(** ** A small engine to run the wrapper on

    [toy rows codes] knows one database handle, [toy_db], and two statement
    handles.  [toy_select] is a prepared query with one text column whose
    result rows are [rows]; it has one named parameter, [":a"].  Whatever is
    prepared on [toy_db] gets the handle [toy_stmt], and the n-th step of
    [toy_stmt] answers the n-th code of [codes] ([SQLITE_DONE] once they are
    used up).  Preparing on any other handle is a misuse. *)

Definition toy_db : ptr := 1.
Definition toy_select : ptr := 7.
Definition toy_stmt : ptr := 9.

Definition is_step_of (stmt : ptr) (c : call) : bool :=
  match c with
  | sqlite3_step s => s =? stmt
  | _ => false
  end.

(** How many times [stmt] was stepped in a history. *)
Definition steps_of (stmt : ptr) (h : list call) : nat :=
  List.length (List.filter (is_step_of stmt) h).

(** The region a text pointer gives access to: the bytes and a terminator. *)
Definition terminated (s : string) : string := s ++ String NUL "".

(** The row [toy_select] is positioned on after the steps in [h]. *)
Definition toy_row (rows : list string) (h : list call) : option string :=
  match steps_of toy_select h with
  | O => None
  | S n => List.nth_error rows n
  end.

Definition toy (rows : list string) (codes : list Z)
    (h : list call) (c : call) : reply_of c :=
  match c return reply_of c with
  | sqlite3_prepare_v2 db _ _ =>
      if db =? toy_db then (SQLITE_OK, toy_stmt) else (SQLITE_MISUSE, nullptr)
  | sqlite3_step s =>
      if s =? toy_select then
        if (steps_of toy_select h <? List.length rows)%nat
        then SQLITE_ROW else SQLITE_DONE
      else if s =? toy_stmt then
        List.nth (steps_of toy_stmt h) codes SQLITE_DONE
      else SQLITE_MISUSE
  | sqlite3_finalize _ => SQLITE_OK
  | sqlite3_bind_text s _ _ _ | sqlite3_bind_int s _ _
  | sqlite3_bind_int64 s _ _ | sqlite3_bind_null s _ => SQLITE_OK
  | sqlite3_bind_double s _ _ => SQLITE_OK
  | sqlite3_bind_parameter_index s name =>
      if (s =? toy_select) && String.eqb name ":a" then 1 else 0
  | sqlite3_column_count s => if s =? toy_select then 1 else 0
  | sqlite3_column_type s i =>
      match toy_row rows h with
      | Some _ => if (s =? toy_select) && (i =? 0) then SQLITE_TEXT else SQLITE_NULL
      | None => SQLITE_NULL
      end
  | sqlite3_column_int64 _ _ => 0
  | sqlite3_column_double _ _ => 0
  | sqlite3_column_text s i | sqlite3_column_blob s i =>
      match toy_row rows h with
      | Some row =>
          if (s =? toy_select) && (i =? 0) then Some (terminated row) else None
      | None => None
      end
  | sqlite3_column_bytes s i =>
      match toy_row rows h with
      | Some row => if (s =? toy_select) && (i =? 0) then size row else 0
      | None => 0
      end
  end.

(** The world in which nothing has been called yet. *)
Definition fresh (rows : list string) (codes : list Z) : world :=
  World (toy rows codes) [].

(** ** Vocabulary of the statements below *)

(** The two engine calls [Value::as_text] may use to learn the kind of its
    cell: [is_text() || is_blob()] asks once when the answer is
    [SQLITE_TEXT] and twice otherwise. *)
Definition column_type_of (v : Value.t) : call :=
  sqlite3_column_type (Value.stmt_ v) (to_int (Value.index_ v)).

Definition column_text_of (v : Value.t) : call :=
  sqlite3_column_text (Value.stmt_ v) (to_int (Value.index_ v)).

Definition column_bytes_of (v : Value.t) : call :=
  sqlite3_column_bytes (Value.stmt_ v) (to_int (Value.index_ v)).

(** The kind the engine reports in world [w] is Text or Blob. *)
Definition text_or_blob (v : Value.t) (w : world) : bool :=
  (answer w (column_type_of v) =? SQLITE_TEXT)
  || (answer (after w (column_type_of v)) (column_type_of v) =? SQLITE_BLOB).

(** The world once the kind has been asked for. *)
Definition kind_asked (v : Value.t) (w : world) : world :=
  if answer w (column_type_of v) =? SQLITE_TEXT
  then after w (column_type_of v)
  else after (after w (column_type_of v)) (column_type_of v).

(** In world [w] the engine presents the cell of [v] as a Text or Blob value
    holding exactly the bytes [s]: the pointer leads to [s] and its
    terminator, the kind is Text or Blob, and the length is that of [s]. *)
Definition presents (v : Value.t) (w : world) (s : string) : Prop :=
  answer w (column_text_of v) = Some (terminated s)
  /\ text_or_blob v (after w (column_text_of v)) = true
  /\ answer (kind_asked v (after w (column_text_of v))) (column_bytes_of v)
     = size s.

(** The world after [k] rounds of COMMIT that the private [exec] reported
    busy, if the first [k] rounds from [w] are all busy. *)
Fixpoint after_busy (db : ptr) (k : nat) (w : world) : option world :=
  match k with
  | O => Some w
  | S k' =>
      match Transaction.exec db "COMMIT;" w with
      | Returns res w1 =>
          if res =? SQLITE_BUSY then after_busy db k' w1 else None
      | _ => None
      end
  end.

(** How many times [sql] was handed to [sqlite3_prepare_v2] in a history. *)
Definition is_prepare_of (sql : string) (c : call) : bool :=
  match c with
  | sqlite3_prepare_v2 _ zSql _ => String.eqb zSql sql
  | _ => false
  end.

Definition issued (sql : string) (w : world) : nat :=
  List.length (List.filter (is_prepare_of sql) (log w)).

(** Is the call one of the [sqlite3_bind_*] setters? *)
Definition is_bind (c : call) : bool :=
  match c with
  | sqlite3_bind_text _ _ _ _ | sqlite3_bind_int _ _ _
  | sqlite3_bind_int64 _ _ _ | sqlite3_bind_null _ _
  | sqlite3_bind_double _ _ _ => true
  | _ => false
  end.

(** The setter the overload for [x] calls, at position [pos]. *)
Definition bind_call (stmt : ptr) (pos : Z) (x : Statement.value) : call :=
  match x with
  | Statement.of_string value =>
      sqlite3_bind_text stmt pos value (to_int (size value))
  | Statement.of_bool b => sqlite3_bind_int stmt pos (if b then 1 else 0)
  | Statement.of_int32 n => sqlite3_bind_int stmt pos n
  | Statement.of_int64 n => sqlite3_bind_int64 stmt pos n
  | Statement.of_nullptr => sqlite3_bind_null stmt pos
  | Statement.of_double d => sqlite3_bind_double stmt pos d
  end.

(** The calls a run added to the log, when it ended with a state. *)
Definition final_world {A} (o : outcome world A) : option world :=
  match o with
  | Returns _ w | Throws _ w => Some w
  | _ => None
  end.

Definition final_state {A} (o : outcome Transaction.state A)
    : option Transaction.state :=
  match o with
  | Returns _ s | Throws _ s => Some s
  | _ => None
  end.

Definition throws {S A} (o : outcome S A) : bool :=
  match o with
  | Throws _ _ => true
  | _ => false
  end.

(** The answer of the engine to that setter in world [w]. *)
Definition bind_result (w : world) (stmt : ptr) (pos : Z)
    (x : Statement.value) : Z :=
  match x with
  | Statement.of_string value =>
      answer w (sqlite3_bind_text stmt pos value (to_int (size value)))
  | Statement.of_bool b =>
      answer w (sqlite3_bind_int stmt pos (if b then 1 else 0))
  | Statement.of_int32 n => answer w (sqlite3_bind_int stmt pos n)
  | Statement.of_int64 n => answer w (sqlite3_bind_int64 stmt pos n)
  | Statement.of_nullptr => answer w (sqlite3_bind_null stmt pos)
  | Statement.of_double d => answer w (sqlite3_bind_double stmt pos d)
  end.

(** The text of the [Error] the overload for [x] throws. *)
Definition bind_message (x : Statement.value) : string :=
  match x with
  | Statement.of_nullptr => "bind failed: "
  | _ => "bind failed"
  end.

(** The setter calls in a history: the bindings the engine was given. *)
Definition bindings (w : world) : list call := List.filter is_bind (log w).

(** A transaction is active when it holds a handle and is not yet done: the
    test the move operations make before they commit. *)
Definition active (t : Transaction.t) : bool :=
  negb (is_null (Transaction.db_ t)) && negb (Transaction.done_ t).

(** ** Ownership of the statement handle

    [Statement] keeps its handle in a [std::unique_ptr] whose deleter is
    [STMTFinalizer]; the destructor and both move operations are the
    defaulted ones, so they are those of the [unique_ptr]. *)

Module Lifetime.

(** [STMTFinalizer::operator()]. *)
Definition STMTFinalizer (stmt : ptr) : M world unit :=
  sqlite3 (sqlite3_finalize stmt) ;;; ret tt.

(** [~Statement()]: the deleter runs on a non-null pointer only. *)
Definition destructor (this : Statement.t) : M world unit :=
  if is_null (Statement.stmt_ this) then ret tt
  else STMTFinalizer (Statement.stmt_ this).

(** [Statement(Statement&& st)]: the new object and the source after it. *)
Definition move_constructor (src : Statement.t) : Statement.t * Statement.t :=
  (Statement.mk (Statement.stmt_ src), Statement.mk nullptr).

(** [operator=(Statement&& st)], that is [reset(st.release())]: the source
    lets go of its pointer, the destination takes it and then deletes the
    one it had.  Gives the destination and the source after it. *)
Definition move_assign (dst src : Statement.t)
    : M world (Statement.t * Statement.t) :=
  (if is_null (Statement.stmt_ dst) then ret tt
   else STMTFinalizer (Statement.stmt_ dst)) ;;;
  ret (Statement.mk (Statement.stmt_ src), Statement.mk nullptr).

End Lifetime.

(** ** [DB]

    [open] and the closing of the connection are left to the caller: the
    model starts from [DB(sqlite3* db)], the wrapper of an opened
    database. *)

Module DB.

Record t : Type := mk { db_ : ptr }.

Definition get (this : t) : ptr := db_ this.

(** [prepare(const std::string& stmt)]. *)
Definition prepare (this : t) (stmt : string) : M world Statement.t :=
  r <- sqlite3 (sqlite3_prepare_v2 (db_ this) stmt (to_int (size stmt))) ;;
  let (res, st) := r : Z * ptr in
  if negb (res =? SQLITE_OK) then throw (mkError res "prepare failed")
  else ret (Statement.mk st).

(** The private [bind_all]: one [bind] per argument, positions counting up
    from [idx]. *)
Fixpoint bind_all (stmt : Statement.t) (idx : Z) (args : list Statement.value)
    : M world unit :=
  match args with
  | [] => ret tt
  | x :: args' =>
      Statement.bind stmt idx x ;;;
      bind_all stmt (to_unsigned (idx + 1)) args'
  end.

(** [prepare(const std::string& stmt, A&&... args)].  When a [bind] throws,
    the local [Statement] is destroyed on the way out. *)
Definition prepare_args (this : t) (stmt : string)
    (args : list Statement.value) : M world Statement.t :=
  st <- prepare this stmt ;;
  fun w =>
    match bind_all st 1 args w with
    | Returns _ w' => Returns st w'
    | Throws e w' => (Lifetime.destructor st ;;; throw e) w'
    | Undefined => Undefined
    | OutOfFuel => OutOfFuel
    end.

(** [transaction()]. *)
Definition transaction (this : t) : M world Transaction.t :=
  Transaction.constructor (db_ this).

End DB.

(** How many times [stmt] was finalized in a history. *)
Definition is_finalize_of (stmt : ptr) (c : call) : bool :=
  match c with
  | sqlite3_finalize s => s =? stmt
  | _ => false
  end.

Definition finalized (stmt : ptr) (w : world) : nat :=
  List.length (List.filter (is_finalize_of stmt) (log w)).

(** The setters [bind_all] calls for [args] when none of them fails. *)
Fixpoint setters (stmt : ptr) (idx : Z) (args : list Statement.value)
    : list call :=
  match args with
  | [] => []
  | x :: args' => bind_call stmt idx x :: setters stmt (idx + 1) args'
  end.

(** The calls a run added to the log of [w]. *)
Definition added (w w' : world) : list call :=
  List.skipn (List.length (log w)) (log w').

(** The world after a list of calls. *)
Definition after_all (w : world) (cs : list call) : world :=
  World (engine w) (log w ++ cs)%list.

(** A variant of the small engine that knows how many parameters its
    statements have: one.  A setter at any other position is refused with
    [SQLITE_RANGE]. *)
Definition SQLITE_RANGE : Z := 25.

Definition in_range (pos : Z) : Z :=
  if pos =? 1 then SQLITE_OK else SQLITE_RANGE.

Definition strict (rows : list string) (codes : list Z)
    (h : list call) (c : call) : reply_of c :=
  match c as c0 return reply_of c0 with
  | sqlite3_bind_text _ pos _ _ => in_range pos
  | sqlite3_bind_int _ pos _ => in_range pos
  | sqlite3_bind_int64 _ pos _ => in_range pos
  | sqlite3_bind_null _ pos => in_range pos
  | sqlite3_bind_double _ pos _ => in_range pos
  | c0 => toy rows codes h c0
  end.

(** ** The test runner of [unittest.hpp]

    A registered test is known to the runner only through what its [run()]
    does: it returns, it throws the runner's own [error] (a line and a
    message), or it throws something else, which the runner does not catch.
    What [run] prints is kept as the list of lines sent to [std::cout] and
    [std::cerr], and the names of the tests it ran are kept beside it.  The
    seconds the timer measures are not known to the model: [seconds k] is
    the text printed for the k-th test that was run. *)

Module unittest.

Definition LARGE_TEST : Z := 1.
Definition BENCHMARK : Z := 2.

Inductive verdict : Type :=
| returns_normally
| throws_error (line : Z) (what : string)
| throws_other.

(** [tests_]: the entries of the [std::map], in the order of their keys. *)
Definition registry : Type := list (string * (Z * verdict)).

(** [tests_.count(name)]. *)
Fixpoint count (tests : registry) (name : string) : nat :=
  match tests with
  | [] => 0
  | (k, _) :: rest => if String.eqb k name then 1 else count rest name
  end.

(** The entry [tests_[name]] refers to, when there is one. *)
Fixpoint find (tests : registry) (name : string) : option (Z * verdict) :=
  match tests with
  | [] => None
  | (k, v) :: rest => if String.eqb k name then Some v else find rest name
  end.

(** [add]: [tests_[name]] is created in key order if need be, and given the
    flags and the test. *)
Fixpoint add (tests : registry) (name : string) (flags : Z) (test : verdict)
    : registry :=
  match tests with
  | [] => [(name, (flags, test))]
  | (k, v) :: rest =>
      match String.compare name k with
      | Eq => (name, (flags, test)) :: rest
      | Lt => (name, (flags, test)) :: (k, v) :: rest
      | Gt => (k, v) :: add rest name flags test
      end
  end.

(** [struct Args]. *)
Record Args : Type := mkArgs { argv_ : list string; argc_ : Z; index_ : Z }.

Definition Args_ (argc : Z) (argv : list string) : Args := mkArgs argv argc 1.

Definition operator_bool (a : Args) : bool := index_ a <? argc_ a.

(** [argv_[index_]]. *)
Definition current (a : Args) : string :=
  List.nth (Z.to_nat (index_ a)) (argv_ a) "".

Definition advance (a : Args) : Args :=
  mkArgs (argv_ a) (argc_ a) (index_ a + 1).

(** [arg(short_name, long_name)]: the result and the object after it. *)
Definition arg (a : Args) (short_name long_name : string) : bool * Args :=
  if index_ a <? argc_ a then
    if String.eqb (current a) short_name || String.eqb (current a) long_name
    then (true, advance a)
    else (false, a)
  else (false, a).

(** [arg(short_name, long_name, value)]: the result, the value written (if
    any) and the object after it. *)
Definition arg_with_value (a : Args) (short_name long_name : string)
    : bool * option string * Args :=
  if index_ a + 1 <? argc_ a then
    if String.eqb (current a) short_name || String.eqb (current a) long_name
    then (true, Some (current (advance a)), advance (advance a))
    else (false, None, a)
  else (false, None, a).

(** [arg(value)]. *)
Definition arg_value (a : Args) : bool * option string * Args :=
  if index_ a <? argc_ a then (true, Some (current a), advance a)
  else (false, None, a).

Inductive line : Type :=
| cout (text : string)
| cerr (text : string).

Definition usage (prog : string) : list line :=
  [cout ("Usage: " ++ prog ++ " [-l] [-a] [test1 [test2...]]");
   cout "   --help, -h         print this message and exit.";
   cout "   --list, -l         print list of available tests and exit.";
   cout "   --all, -a          run all tests (by default only small).";
   cout "   --benchmarks, -b   run also benchmarks.";
   cout "   --verbose, -v      be a little more verbose.";
   cout "test1, test2, ... list of tests to run"].

(** The lines [--list] prints. *)
Definition listing (tests : registry) : list line :=
  (cout "Available tests {"
   :: List.map (fun t => cout ("    " ++ fst t)) tests
   ++ [cout "}"])%list.

(** How [run] ends: it returns a code, or an exception of a test leaves it,
    or it does something undefined, or the bound of the model on the
    argument loop was reached.  [printed] are the lines so far and [ran] the
    tests whose [run()] was called. *)
Inductive ending : Type :=
| exits (code : Z) (printed : list line) (ran : list string)
| escapes (printed : list line) (ran : list string)
| undefined_behaviour
| out_of_fuel.

(** The local variables of [run] and the flag [verbose_]. *)
Record locals : Type := mkLocals {
  tests_to_run : list string;
  all : bool;
  benchmarks : bool;
  verbose_ : bool;
  printed_ : list line
}.

(** The [while (args)] loop: either [run] returns from inside it, or it
    leaves the locals for the rest of [run]. *)
Fixpoint parse (fuel : nat) (tests : registry) (prog : string) (args : Args)
    (l : locals) : ending + locals :=
  if operator_bool args then
    match fuel with
    | O => inl out_of_fuel
    | S fuel' =>
        let (help, args1) := arg args "-h" "--help" in
        if help then inl (exits 0 (printed_ l ++ usage prog) [])
        else
          let (a, args2) := arg args1 "-a" "--all" in
          if a then
            parse fuel' tests prog args2
              (mkLocals (tests_to_run l) true (benchmarks l) (verbose_ l)
                 (printed_ l))
          else
            let (b, args3) := arg args2 "-b" "--benchmarks" in
            if b then
              parse fuel' tests prog args3
                (mkLocals (tests_to_run l) (all l) true (verbose_ l)
                   (printed_ l))
            else
              let (li, args4) := arg args3 "-l" "--list" in
              if li then
                parse fuel' tests prog args4
                  (mkLocals (tests_to_run l) (all l) (benchmarks l)
                     (verbose_ l) (printed_ l ++ listing tests))
              else
                let (v, args5) := arg args4 "-v" "--verbose" in
                if v then
                  parse fuel' tests prog args5
                    (mkLocals (tests_to_run l) (all l) (benchmarks l) true
                       (printed_ l))
                else
                  let '(_, value, args6) := arg_value args5 in
                  let t := match value with Some t => t | None => "" end in
                  if (count tests t =? 0)%nat then
                    inl (exits 1
                           (printed_ l
                            ++ [cerr ("Error: unknown test name `" ++ t ++ "'")])
                           [])
                  else
                    parse fuel' tests prog args6
                      (mkLocals (tests_to_run l ++ [t]) (all l) (benchmarks l)
                         (verbose_ l) (printed_ l))
    end
  else inr l.

Definition has (flags mask : Z) : bool := negb (Z.land flags mask =? 0).

(** The loop that fills an empty [tests_to_run] from the registry. *)
Fixpoint select (tests : registry) (all benchmarks : bool) : list string :=
  match tests with
  | [] => []
  | (name, (flags, _)) :: rest =>
      (if has flags LARGE_TEST then (if all then [name] else [])
       else if has flags BENCHMARK then (if benchmarks then [name] else [])
       else [name])
      ++ select rest all benchmarks
  end.

Definition header (flags : Z) (name : string) : line :=
  cout ((if has flags LARGE_TEST then "[LARGE TEST "
         else if has flags BENCHMARK then "[BENCHMARK "
         else "[SMALL TEST ") ++ name ++ "]").

Definition decimal_int (n : Z) : string := NilEmpty.string_of_int (Z.to_int n).

(** The loop over [tests_to_run]. *)
Fixpoint execute (tests : registry) (seconds : nat -> string)
    (names : list string) (printed : list line) (ran : list string) : ending :=
  match names with
  | [] => exits 0 printed ran
  | name :: rest =>
      match find tests name with
      | None => undefined_behaviour
      | Some (flags, test) =>
          let printed1 := (printed ++ [header flags name])%list in
          let ran1 := (ran ++ [name])%list in
          match test with
          | returns_normally =>
              execute tests seconds rest
                (printed1
                 ++ [cout ("[OK " ++ name ++ " in "
                           ++ seconds (List.length ran) ++ " seconds]")])
                ran1
          | throws_error ln msg =>
              execute tests seconds rest
                (printed1
                 ++ [cerr ("[FAILED " ++ name ++ ": " ++ msg ++ " at line "
                           ++ decimal_int ln ++ "]")])
                ran1
          | throws_other => escapes printed1 ran1
          end
      end
  end.

(** [test_storage::run(argc, argv)]. *)
Definition run (fuel : nat) (tests : registry) (seconds : nat -> string)
    (argc : Z) (argv : list string) : ending :=
  match parse fuel tests (List.nth 0 argv "") (Args_ argc argv)
          (mkLocals [] false false false []) with
  | inl e => e
  | inr l =>
      let names :=
        match tests_to_run l with
        | [] => select tests (all l) (benchmarks l)
        | _ => tests_to_run l
        end in
      execute tests seconds names (printed_ l) []
  end.

End unittest.

(** The argument [c] is the option with these two spellings. *)
Definition spells (c short_name long_name : string) : bool :=
  String.eqb c short_name || String.eqb c long_name.

(** The argument is one of the options [run] knows. *)
Definition is_option (c : string) : bool :=
  spells c "-h" "--help" || spells c "-a" "--all"
  || spells c "-b" "--benchmarks" || spells c "-l" "--list"
  || spells c "-v" "--verbose".


(** No registered test lets an exception other than the runner's [error]
    out of its [run()]. *)
Definition contained (tests : unittest.registry) : Prop :=
  forall (name : string) (flags : Z),
    unittest.find tests name <> Some (flags, unittest.throws_other).

(** The tests [run] called, when it returned. *)
Definition ran_of (e : unittest.ending) : option (list string) :=
  match e with
  | unittest.exits _ _ ran => Some ran
  | _ => None
  end.

Definition code_of (e : unittest.ending) : option Z :=
  match e with
  | unittest.exits code _ _ => Some code
  | _ => None
  end.

(** Whether the selection loop takes a test with these flags: a large test
    when all tests are asked for, a benchmark that is not large when
    benchmarks are asked for, any other test always. *)
Definition chosen (flags : Z) (all benchmarks : bool) : bool :=
  if unittest.has flags unittest.LARGE_TEST then all
  else if unittest.has flags unittest.BENCHMARK then benchmarks
  else true.

(** A variant of the small engine whose cells are integers: the kind of
    column 0 of a positioned row is [SQLITE_INTEGER], and the text pointer
    leads to the digits the engine made of the number. *)
Definition integers (rows : list string) (codes : list Z)
    (h : list call) (c : call) : reply_of c :=
  match c as c0 return reply_of c0 with
  | sqlite3_column_type s i =>
      match toy_row rows h with
      | Some _ =>
          if (s =? toy_select) && (i =? 0)
          then SQLITE_INTEGER else SQLITE_NULL
      | None => SQLITE_NULL
      end
  | c0 => toy rows codes h c0
  end.

(** A parameter name as [bind] by name is given it: [seen] alone, or [seen]
    followed by a zero byte and further bytes. *)
Definition spelled (seen : string) (tail : option string) : string :=
  match tail with
  | None => seen
  | Some junk => seen ++ String NUL junk
  end.

(** What [what()] shows of the unknown-parameter message for such a name:
    the closing quote comes after the name, so it is lost with the bytes
    behind a zero byte. *)
Definition unknown_parameter (seen : string) (tail : option string) : string :=
  "unknown parameter name '"
  ++ match tail with
     | None => seen ++ "'"
     | Some _ => seen
     end.

(** * Properties *)

(** ** Integer conversions and byte strings *)

Lemma to_int_small (z : Z) : 0 <= z < 2 ^ 31 -> to_int z = z.
Proof.
  intros H. unfold to_int.
  rewrite Z.mod_small by lia. lia.
Qed.

Lemma to_int_to_unsigned (n : Z) :
  - 2 ^ 31 <= n < 2 ^ 31 -> to_int (to_unsigned n) = n.
Proof.
  intros H. unfold to_int, to_unsigned.
  destruct (Z_lt_le_dec n 0) as [Hneg | Hpos].
  - replace (n mod 2 ^ 32) with (n + 2 ^ 32).
    + replace (n + 2 ^ 32 + 2 ^ 31) with (n + 2 ^ 31 + 1 * 2 ^ 32) by lia.
      rewrite Z.mod_add by lia. rewrite Z.mod_small by lia. lia.
    + apply Z.mod_unique with (q := -1); lia.
  - rewrite (Z.mod_small n) by lia. rewrite Z.mod_small by lia. lia.
Qed.

Lemma to_size_t_small (z : Z) : 0 <= z < 2 ^ 31 -> to_size_t z = z.
Proof.
  intros H. unfold to_size_t. apply Z.mod_small. lia.
Qed.

Lemma has_nul_terminated (s : string) : has_nul (terminated s) = true.
Proof.
  unfold terminated.
  induction s as [| c s IH]; simpl.
  - reflexivity.
  - rewrite IH. apply orb_true_r.
Qed.

Lemma has_nul_middle (pre post : string) :
  has_nul (pre ++ String NUL post) = true.
Proof.
  induction pre as [| c pre IH]; simpl.
  - reflexivity.
  - rewrite IH. apply orb_true_r.
Qed.

Lemma c_str_middle (pre post : string) :
  has_nul pre = false -> c_str (pre ++ String NUL post) = pre.
Proof.
  induction pre as [| c pre IH]; simpl; intros H.
  - reflexivity.
  - apply orb_false_iff in H. destruct H as [Hc Hpre].
    rewrite Hc. f_equal. now apply IH.
Qed.

Lemma c_str_no_nul (s : string) : has_nul s = false -> c_str s = s.
Proof.
  induction s as [| c s IH]; simpl; intros H; [reflexivity |].
  apply orb_false_iff in H. destruct H as [Hc Hs].
  rewrite Hc. f_equal. now apply IH.
Qed.

Lemma c_str_append (s1 s2 : string) :
  has_nul s1 = false -> c_str (s1 ++ s2) = s1 ++ c_str s2.
Proof.
  induction s1 as [| c s1 IH]; simpl; intros H; [reflexivity |].
  apply orb_false_iff in H. destruct H as [Hc Hs].
  rewrite Hc. f_equal. now apply IH.
Qed.

Lemma c_str_terminated (s : string) :
  has_nul s = false -> c_str (terminated s) = s.
Proof.
  intros H. unfold terminated. now apply c_str_middle.
Qed.

Lemma substring_prefix (s rest : string) :
  substring 0 (String.length s) (s ++ rest) = s.
Proof.
  induction s as [| c s IH]; simpl.
  - destruct rest; reflexivity.
  - now rewrite IH.
Qed.

Lemma length_append (s1 s2 : string) :
  String.length (s1 ++ s2) = (String.length s1 + String.length s2)%nat.
Proof.
  induction s1 as [| c s1 IH]; simpl; [reflexivity | now rewrite IH].
Qed.

Lemma append_assoc (s1 s2 s3 : string) :
  (s1 ++ s2) ++ s3 = s1 ++ (s2 ++ s3).
Proof.
  induction s1 as [| c s1 IH]; simpl; [reflexivity | now rewrite IH].
Qed.

Lemma middle_longer (pre post : string) : pre <> pre ++ String NUL post.
Proof.
  intros H. apply (f_equal String.length) in H.
  rewrite length_append in H. simpl in H. lia.
Qed.

Lemma size_terminated (s : string) : size (terminated s) = size s + 1.
Proof.
  unfold size, terminated. rewrite length_append. simpl. lia.
Qed.

(** ** The monad *)

Lemma bind_sqlite3 {B} (c : call) (k : reply_of c -> M world B) (w : world) :
  bind (sqlite3 c) k w = k (answer w c) (after w c).
Proof. reflexivity. Qed.

Lemma string_of_cstr_ok {S} (data : string) (s : S) :
  has_nul data = true -> string_of_cstr data s = Returns (c_str data) s.
Proof.
  intros H. unfold string_of_cstr. now rewrite H.
Qed.

Lemma string_of_ptr_len_ok {S} (data : string) (len : Z) (s : S) :
  len <= size data ->
  string_of_ptr_len data len s = Returns (substring 0 (Z.to_nat len) data) s.
Proof.
  intros H. unfold string_of_ptr_len.
  apply Z.leb_le in H. now rewrite H.
Qed.

(** ** Row iteration *)

(** One turn of the range-based loop, started at [begin()]. *)
Lemma range_for_loop_begin (body : Statement.t -> M world unit) (fuel : nat)
    (st : Statement.t) (w : world) :
  Statement.range_for_loop body (S fuel)
    (Statement.begin_ st) (Statement.end_ st) w =
    match body st w with
    | Returns _ w1 =>
        match Statement.step st w1 with
        | Returns true w2 =>
            (w :: fst (Statement.range_for_loop body fuel
                         (Statement.begin_ st) (Statement.end_ st) w2),
             snd (Statement.range_for_loop body fuel
                    (Statement.begin_ st) (Statement.end_ st) w2))
        | Returns false w2 => ([w], Returns tt w2)
        | Throws err w2 => ([w], Throws err w2)
        | Undefined => ([w], Undefined)
        | OutOfFuel => ([w], OutOfFuel)
        end
    | Throws err w1 => ([w], Throws err w1)
    | Undefined => ([w], Undefined)
    | OutOfFuel => ([w], OutOfFuel)
    end.
Proof.
  simpl. unfold bind, Statement.operator_incr, Statement.operator_star. simpl.
  destruct (body st w) as [[] w1 | err w1 | |]; try reflexivity.
  unfold bind.
  destruct (Statement.step st w1) as [[|] w2 | err w2 | |]; try reflexivity.
  - simpl. change (Statement.mk_iterator st false) with (Statement.begin_ st).
    destruct (Statement.range_for_loop body fuel (Statement.begin_ st)
                (Statement.end_ st) w2); reflexivity.
  - simpl. destruct fuel; reflexivity.
Qed.

(** The first row the range-based loop hands to its body is the statement as
    it is before any step; from there on the loop is the step-driven one. *)
Lemma range_for_unfold (body : Statement.t -> M world unit) (fuel : nat)
    (st : Statement.t) (w : world) :
  Statement.range_for body (S fuel) st w =
    match body st w with
    | Returns _ w1 =>
        (w :: fst (Statement.step_while body fuel st w1),
         snd (Statement.step_while body fuel st w1))
    | Throws err w1 => ([w], Throws err w1)
    | Undefined => ([w], Undefined)
    | OutOfFuel => ([w], OutOfFuel)
    end.
Proof.
  unfold Statement.range_for.
  revert w. induction fuel as [| fuel IH]; intros w;
    rewrite range_for_loop_begin;
    destruct (body st w) as [[] w1 | err w1 | |]; try reflexivity.
  - simpl. destruct (Statement.step st w1) as [[|] w2 | err w2 | |];
      reflexivity.
  - simpl Statement.step_while.
    destruct (Statement.step st w1) as [[|] w2 | err w2 | |];
      try reflexivity.
    rewrite IH.
    destruct (body st w2) as [[] w3 | err w3 | |]; try reflexivity.
    destruct (Statement.step_while body fuel st w3); reflexivity.
Qed.

(** [positioned] follows the steps: a row is there after the first step of a
    one-row result, and gone after the second. *)
Example positioned_after_steps :
  let w := fresh ["x"] [] in
  positioned w toy_select = false
  /\ positioned (after w (sqlite3_step toy_select)) toy_select = true
  /\ positioned (after (after w (sqlite3_step toy_select))
                   (sqlite3_step toy_select)) toy_select = false.
Proof.
  repeat split.
Qed.

(** With two rows in the result the range-based loop enters its body three
    times, the step-driven reading twice. *)
Example range_for_two_rows :
  let st := Statement.mk toy_select in
  let w := fresh ["x"; "y"] [] in
  let reading := fun _ : Statement.t => ret tt in
  List.map log (fst (Statement.range_for reading 5 st w))
    = [[]; [sqlite3_step toy_select];
       [sqlite3_step toy_select; sqlite3_step toy_select]]
  /\ List.map log (fst (Statement.step_while reading 5 st w))
    = [[sqlite3_step toy_select];
       [sqlite3_step toy_select; sqlite3_step toy_select]].
Proof.
  repeat split.
Qed.

(** C1. On a statement whose result is empty, reading by [step()] finds no
    row: the first [step()] returns false.  The range-based loop on the same
    statement nevertheless hands one row to its body, namely the statement
    before any step, on which no row is positioned; only then does it step
    and stop.  By [range_for_unfold] every iteration starts with this extra
    row, so the two sequences differ. *)
Theorem range_for_begins_before_first_step :
  let st := Statement.mk toy_select in
  let w := fresh [] [] in
  let reading := fun _ : Statement.t => ret tt in
  Statement.step_while reading 1 st w
    = ([], Returns tt (after w (sqlite3_step toy_select)))
  /\ Statement.range_for reading 1 st w
    = ([w], Returns tt (after w (sqlite3_step toy_select)))
  /\ positioned w toy_select = false.
Proof.
  repeat split.
Qed.

(** ** The private [exec] of [Transaction] *)

Lemma issued_after (sql : string) (w : world) (c : call) :
  issued sql (after w c) =
    (issued sql w + (if is_prepare_of sql c then 1 else 0))%nat.
Proof.
  unfold issued, after. simpl.
  rewrite List.filter_app, List.length_app. simpl.
  destruct (is_prepare_of sql c); reflexivity.
Qed.

(** [exec] always returns, and hands its text to the engine once. *)
Lemma exec_returns (db : ptr) (sql : string) (w : world) :
  exists res w',
    Transaction.exec db sql w = Returns res w'
    /\ issued sql w' = S (issued sql w).
Proof.
  unfold Transaction.exec. rewrite bind_sqlite3.
  destruct (answer w (sqlite3_prepare_v2 db sql (-1))) as [res stmt].
  assert (Hprep : issued sql (after w (sqlite3_prepare_v2 db sql (-1)))
                  = S (issued sql w)).
  { rewrite issued_after. simpl. rewrite String.eqb_refl. lia. }
  destruct (negb (res =? SQLITE_OK)).
  - eexists. eexists. split; [reflexivity | exact Hprep].
  - rewrite bind_sqlite3. unfold bind at 1. simpl.
    match goal with
    | |- context [if ?b then _ else _] => destruct b
    end; (eexists; eexists; split; [reflexivity |]);
      rewrite !issued_after; simpl; rewrite String.eqb_refl; lia.
Qed.

(** One turn of the commit loop. *)
Lemma try_commit_turn (fuel : nat) (exc : bool) (t : Transaction.t)
    (w w1 : world) (res : Z) :
  Transaction.exec (Transaction.db_ t) "COMMIT;" w = Returns res w1 ->
  Transaction.try_commit (S fuel) exc (t, w) =
    if res =? SQLITE_OK then
      Returns true (Transaction.mk (Transaction.db_ t) true, w1)
    else if res =? SQLITE_BUSY then
      Transaction.try_commit fuel exc (t, w1)
    else if exc then Throws (mkError res "commit failed") (t, w1)
    else Returns false (t, w1).
Proof.
  intros H. simpl.
  unfold bind, Transaction.this, Transaction.lift. simpl. rewrite H.
  destruct (res =? SQLITE_OK); [reflexivity |].
  destruct (res =? SQLITE_BUSY); simpl; [reflexivity |].
  destruct exc; reflexivity.
Qed.

(** The loop never throws when asked not to. *)
Lemma try_commit_quiet (fuel : nat) (s : Transaction.state) :
  throws (Transaction.try_commit fuel false s) = false.
Proof.
  revert s. induction fuel as [| fuel IH]; intros [t w]; [reflexivity |].
  destruct (exec_returns (Transaction.db_ t) "COMMIT;" w) as (res & w1 & H & _).
  rewrite (try_commit_turn _ _ _ _ _ _ H).
  destruct (res =? SQLITE_OK); [reflexivity |].
  destruct (res =? SQLITE_BUSY); [apply IH | reflexivity].
Qed.

(** Busy rounds are spent without leaving the loop. *)
Lemma try_commit_busy_rounds (k : nat) :
  forall (fuel : nat) (exc : bool) (t : Transaction.t) (w w1 : world),
    after_busy (Transaction.db_ t) k w = Some w1 ->
    Transaction.try_commit (k + fuel) exc (t, w)
      = Transaction.try_commit fuel exc (t, w1)
    /\ issued "COMMIT;" w1 = (issued "COMMIT;" w + k)%nat.
Proof.
  induction k as [| k IH]; intros fuel exc t w w1 H; simpl in H.
  - injection H as ->. split; [reflexivity | lia].
  - destruct (exec_returns (Transaction.db_ t) "COMMIT;" w)
      as (res & w' & Hexec & Hcount).
    rewrite Hexec in H.
    destruct (res =? SQLITE_BUSY) eqn:Hbusy; [| discriminate].
    apply Z.eqb_eq in Hbusy. subst res.
    destruct (IH fuel exc t w' w1 H) as [Hloop Hissued].
    split.
    + change (S k + fuel)%nat with (S (k + fuel)).
      rewrite (try_commit_turn _ _ _ _ _ _ Hexec). simpl. exact Hloop.
    + rewrite Hissued, Hcount. lia.
Qed.

(** C2. Take any transaction (an active one in particular) whose COMMIT is
    reported busy [k] times and is then answered with a result [res] other
    than busy.  Given room for more than [k] rounds, the explicit [commit()]
    issues COMMIT again after every busy answer, [k + 1] times in all; it
    returns with the transaction done when [res] is [SQLITE_OK], and
    otherwise throws an [Error] that carries [res], leaving the object as it
    was.  The destructor goes through the very same rounds and ends in the
    same world, but returns normally whatever [res] is; it never throws, in
    any state.  While all answers are busy neither of them gives up. *)
Theorem commit_retries_destructor_swallows :
  forall (t : Transaction.t) (k fuel : nat) (w w1 w2 : world) (res : Z),
    after_busy (Transaction.db_ t) k w = Some w1 ->
    Transaction.exec (Transaction.db_ t) "COMMIT;" w1 = Returns res w2 ->
    res <> SQLITE_BUSY ->
    (k < fuel)%nat ->
    Transaction.commit fuel (t, w)
      = (if res =? SQLITE_OK
         then Returns tt (Transaction.mk (Transaction.db_ t) true, w2)
         else Throws (mkError res "commit failed") (t, w2))
    /\ Transaction.destructor fuel (t, w)
      = Returns tt
          (if res =? SQLITE_OK
           then Transaction.mk (Transaction.db_ t) true else t, w2)
    /\ issued "COMMIT;" w2 = (issued "COMMIT;" w + k + 1)%nat
    /\ (forall (n : nat) (s : Transaction.state),
          throws (Transaction.destructor n s) = false)
    /\ (forall (n : nat) (w' : world),
          after_busy (Transaction.db_ t) n w = Some w' ->
          Transaction.commit n (t, w) = OutOfFuel
          /\ Transaction.destructor n (t, w) = OutOfFuel).
Proof.
  intros t k fuel w w1 w2 res Hbusy Hexec Hres Hfuel.
  assert (Hloop : forall exc,
    Transaction.try_commit fuel exc (t, w) =
      if res =? SQLITE_OK then
        Returns true (Transaction.mk (Transaction.db_ t) true, w2)
      else if exc then Throws (mkError res "commit failed") (t, w2)
      else Returns false (t, w2)).
  { intros exc.
    replace fuel with (k + S (fuel - k - 1))%nat by lia.
    destruct (try_commit_busy_rounds k (S (fuel - k - 1)) exc t w w1 Hbusy)
      as [-> _].
    rewrite (try_commit_turn _ _ _ _ _ _ Hexec).
    destruct (res =? SQLITE_OK); [reflexivity |].
    apply Z.eqb_neq in Hres. rewrite Hres. reflexivity. }
  repeat split.
  - unfold Transaction.commit, bind. rewrite Hloop.
    destruct (res =? SQLITE_OK); reflexivity.
  - unfold Transaction.destructor, bind. rewrite Hloop.
    destruct (res =? SQLITE_OK); reflexivity.
  - destruct (exec_returns (Transaction.db_ t) "COMMIT;" w1)
      as (res' & w2' & Hexec' & Hcount).
    rewrite Hexec in Hexec'. injection Hexec' as _ <-.
    destruct (try_commit_busy_rounds k 0 true t w w1 Hbusy) as [_ Hk].
    rewrite Hcount, Hk. lia.
  - intros n s. unfold Transaction.destructor, bind.
    pose proof (try_commit_quiet n s) as Hquiet.
    destruct (Transaction.try_commit n false s); simpl in *;
      solve [reflexivity | discriminate].
  - unfold Transaction.commit, bind.
    destruct (try_commit_busy_rounds n 0 true t w w' H) as [Hspin _].
    rewrite Nat.add_0_r in Hspin. now rewrite Hspin.
  - unfold Transaction.destructor, bind.
    destruct (try_commit_busy_rounds n 0 false t w w' H) as [Hspin _].
    rewrite Nat.add_0_r in Hspin. now rewrite Hspin.
Qed.

(** An active transaction whose COMMIT is busy twice and then fails with
    [SQLITE_ERROR]: [commit()] throws after the third COMMIT, the destructor
    returns after the third COMMIT. *)
Lemma commit_retries_destructor_swallows_witness :
  let t := Transaction.mk toy_db false in
  let w := fresh [] [SQLITE_BUSY; SQLITE_BUSY; SQLITE_ERROR] in
  let round := [sqlite3_prepare_v2 toy_db "COMMIT;" (-1);
                sqlite3_step toy_stmt; sqlite3_finalize toy_stmt] in
  let w2 := World (engine w) (round ++ round ++ round)%list in
  Transaction.commit 3 (t, w)
    = Throws (mkError SQLITE_ERROR "commit failed") (t, w2)
  /\ Transaction.destructor 3 (t, w) = Returns tt (t, w2)
  /\ issued "COMMIT;" w2 = 3%nat.
Proof.
  intros t w round w2.
  destruct (commit_retries_destructor_swallows t 2 3 w
              (World (engine w) (round ++ round)%list) w2 SQLITE_ERROR)
    as (Hcommit & Hdestructor & Hissued & _).
  - reflexivity.
  - reflexivity.
  - discriminate.
  - lia.
  - split; [exact Hcommit | split; [exact Hdestructor | exact Hissued]].
Defined.

(** A constructor that returns gives an active transaction on its handle,
    having issued BEGIN once. *)
Lemma constructor_active (db : ptr) (w w' : world) (t : Transaction.t) :
  Transaction.constructor db w = Returns t w' ->
  t = Transaction.mk db false
  /\ issued "BEGIN TRANSACTION;" w' = S (issued "BEGIN TRANSACTION;" w).
Proof.
  unfold Transaction.constructor, bind.
  destruct (exec_returns db "BEGIN TRANSACTION;" w) as (res & w1 & He & Hc).
  rewrite He.
  destruct (negb (res =? SQLITE_OK)); [discriminate |].
  intros H. injection H as <- <-. split; [reflexivity | exact Hc].
Qed.

(** ** Destruction and moves *)

(** An explicit [commit()] that returns leaves the transaction done. *)
Lemma try_commit_returns_done (fuel : nat) :
  forall (s s' : Transaction.state) (b : bool),
    Transaction.try_commit fuel true s = Returns b s' ->
    b = true /\ Transaction.done_ (fst s') = true.
Proof.
  induction fuel as [| fuel IH]; intros [t w] s' b H; [discriminate |].
  destruct (exec_returns (Transaction.db_ t) "COMMIT;" w) as (res & w1 & He & _).
  rewrite (try_commit_turn _ _ _ _ _ _ He) in H.
  destruct (res =? SQLITE_OK).
  - injection H as <- <-. split; reflexivity.
  - destruct (res =? SQLITE_BUSY); [| discriminate].
    now apply IH in H.
Qed.

Lemma commit_returns_done (fuel : nat) (s s' : Transaction.state) :
  Transaction.commit fuel s = Returns tt s' ->
  Transaction.done_ (fst s') = true.
Proof.
  unfold Transaction.commit, bind. intros H.
  destruct (Transaction.try_commit fuel true s) as [b s1 | | |] eqn:E;
    try discriminate.
  injection H as <-. now apply try_commit_returns_done in E.
Qed.

Lemma rollback_returns_done (s s' : Transaction.state) :
  Transaction.rollback s = Returns tt s' ->
  Transaction.done_ (fst s') = true.
Proof.
  destruct s as [t w].
  unfold Transaction.rollback, bind, Transaction.this, Transaction.lift. simpl.
  destruct (exec_returns (Transaction.db_ t) "ROLLBACK;" w) as (res & w1 & He & _).
  rewrite He.
  destruct (negb (res =? SQLITE_OK)); [discriminate |].
  unfold Transaction.set_done. intros H. injection H as <-. reflexivity.
Qed.

(** Whenever the commit loop ends, it has issued COMMIT at least once. *)
Lemma try_commit_issues (fuel : nat) :
  forall (exc : bool) (t : Transaction.t) (w : world) (s : Transaction.state),
    final_state (Transaction.try_commit fuel exc (t, w)) = Some s ->
    (issued "COMMIT;" w < issued "COMMIT;" (snd s))%nat.
Proof.
  induction fuel as [| fuel IH]; intros exc t w s H; [discriminate |].
  destruct (exec_returns (Transaction.db_ t) "COMMIT;" w)
    as (res & w1 & He & Hcount).
  rewrite (try_commit_turn _ _ _ _ _ _ He) in H.
  destruct (res =? SQLITE_OK).
  - injection H as <-. simpl. lia.
  - destruct (res =? SQLITE_BUSY).
    + apply IH in H. lia.
    + destruct exc; injection H as <-; simpl; lia.
Qed.

(** The loop does not read [done_]: started with the flag set or cleared, it
    makes the same calls and ends the same way. *)
Lemma try_commit_ignores_done (fuel : nat) :
  forall (exc : bool) (db : ptr) (w : world),
    Transaction.try_commit fuel exc (Transaction.mk db true, w) =
      match Transaction.try_commit fuel exc (Transaction.mk db false, w) with
      | Returns b (_, w') => Returns b (Transaction.mk db true, w')
      | Throws e (_, w') => Throws e (Transaction.mk db true, w')
      | Undefined => Undefined
      | OutOfFuel => OutOfFuel
      end.
Proof.
  induction fuel as [| fuel IH]; intros exc db w; [reflexivity |].
  destruct (exec_returns db "COMMIT;" w) as (res & w1 & He & _).
  rewrite (try_commit_turn fuel exc (Transaction.mk db true) w w1 res He).
  rewrite (try_commit_turn fuel exc (Transaction.mk db false) w w1 res He).
  simpl.
  destruct (res =? SQLITE_OK); [reflexivity |].
  destruct (res =? SQLITE_BUSY); [apply IH |].
  destruct exc; reflexivity.
Qed.

(** The move constructor calls nothing: the new object takes both fields of
    the source, and the source keeps its flag and loses its handle. *)
Lemma move_constructor_fields (fuel : nat) (src : Transaction.t) (w : world) :
  Transaction.move_constructor fuel src w =
    Returns tt
      ((Transaction.mk (Transaction.db_ src) (Transaction.done_ src),
        Transaction.mk nullptr (Transaction.done_ src)), w).
Proof. reflexivity. Qed.

(** The same for a move assignment onto an object that needs no commit. *)
Lemma move_assign_fields (fuel : nat) (dst src : Transaction.t) (w : world) :
  negb (is_null (Transaction.db_ dst)) && negb (Transaction.done_ dst) = false ->
  Transaction.move_assign fuel ((dst, src), w) =
    Returns tt
      ((Transaction.mk (Transaction.db_ src) (Transaction.done_ src),
        Transaction.mk nullptr (Transaction.done_ src)), w).
Proof.
  intros H. unfold Transaction.move_assign, Transaction.move_body, bind.
  simpl. rewrite H. reflexivity.
Qed.

(** The destructor of any object, moved-from or not, starts by handing
    COMMIT to the engine. *)
Lemma destructor_issues_commit (fuel : nat) (t : Transaction.t) (w : world)
    (s : Transaction.state) :
  final_state (Transaction.destructor fuel (t, w)) = Some s ->
  (issued "COMMIT;" w < issued "COMMIT;" (snd s))%nat.
Proof.
  unfold Transaction.destructor, bind. intros H.
  apply (try_commit_issues fuel false t w s).
  destruct (Transaction.try_commit fuel false (t, w)); simpl in *;
    solve [exact H | discriminate].
Qed.

(** C3. Moving an active transaction out of [src] hands both fields to the
    new object and clears the handle of [src]; but the destructor of the
    moved-from [src] then still enters the commit loop and calls the engine,
    preparing COMMIT on the null handle.  So the destruction of the source
    is not free of engine calls. *)
Theorem moved_from_destructor_calls_engine :
  let src := Transaction.mk toy_db false in
  let moved := Transaction.mk nullptr false in
  let w := fresh [] [] in
  Transaction.move_constructor 1 src w = Returns tt ((src, moved), w)
  /\ Transaction.destructor 1 (moved, w)
     = Returns tt
         (moved, after w (sqlite3_prepare_v2 nullptr "COMMIT;" (-1)))
  /\ issued "COMMIT;" (after w (sqlite3_prepare_v2 nullptr "COMMIT;" (-1)))
     = S (issued "COMMIT;" w).
Proof.
  repeat split.
Qed.

(** C9. Let a transaction be resolved by a [commit()] or a [rollback()] that
    returned, so that its [done_] flag is set.  Its destructor still runs the
    commit loop: it hands one more COMMIT to the engine and, when the engine
    answers that with an error (anything but success or busy), returns
    normally with the object unchanged, the error being dropped.  Whenever
    the destructor ends it has issued COMMIT, and the loop behaves the same
    with the flag set as with the flag cleared, since nothing reads it. *)
Theorem destructor_commits_again_when_resolved :
  forall (t0 t : Transaction.t) (w0 w w' : world) (fuel0 fuel : nat) (res : Z),
    Transaction.commit fuel0 (t0, w0) = Returns tt (t, w)
    \/ Transaction.rollback (t0, w0) = Returns tt (t, w) ->
    Transaction.exec (Transaction.db_ t) "COMMIT;" w = Returns res w' ->
    res <> SQLITE_OK ->
    res <> SQLITE_BUSY ->
    Transaction.done_ t = true
    /\ Transaction.destructor (S fuel) (t, w) = Returns tt (t, w')
    /\ issued "COMMIT;" w' = S (issued "COMMIT;" w)
    /\ (forall (n : nat) (w1 : world) (s : Transaction.state),
          final_state (Transaction.destructor n (t, w1)) = Some s ->
          (issued "COMMIT;" w1 < issued "COMMIT;" (snd s))%nat)
    /\ (forall (n : nat) (exc : bool) (db : ptr) (w1 : world),
          Transaction.try_commit n exc (Transaction.mk db true, w1) =
            match Transaction.try_commit n exc (Transaction.mk db false, w1) with
            | Returns b (_, w2) => Returns b (Transaction.mk db true, w2)
            | Throws e (_, w2) => Throws e (Transaction.mk db true, w2)
            | Undefined => Undefined
            | OutOfFuel => OutOfFuel
            end).
Proof.
  intros t0 t w0 w w' fuel0 fuel res Hresolved Hexec Hok Hbusy.
  split; [| split; [| split; [| split]]].
  - destruct Hresolved as [H | H].
    + apply commit_returns_done in H. exact H.
    + apply rollback_returns_done in H. exact H.
  - unfold Transaction.destructor, bind.
    rewrite (try_commit_turn _ _ _ _ _ _ Hexec).
    apply Z.eqb_neq in Hok, Hbusy. rewrite Hok, Hbusy. reflexivity.
  - destruct (exec_returns (Transaction.db_ t) "COMMIT;" w)
      as (res' & w2 & Hexec' & Hcount).
    rewrite Hexec in Hexec'. injection Hexec' as _ <-. exact Hcount.
  - intros n w1 s. apply destructor_issues_commit.
  - intros n exc db w1. apply try_commit_ignores_done.
Qed.

(** A transaction whose [commit()] succeeded; the engine then refuses the
    COMMIT of the destructor with [SQLITE_ERROR], and the destructor returns
    as if nothing had happened. *)
Lemma destructor_commits_again_when_resolved_witness :
  let t0 := Transaction.mk toy_db false in
  let t := Transaction.mk toy_db true in
  let w0 := fresh [] [SQLITE_DONE; SQLITE_ERROR] in
  let round := [sqlite3_prepare_v2 toy_db "COMMIT;" (-1);
                sqlite3_step toy_stmt; sqlite3_finalize toy_stmt] in
  let w := World (engine w0) round in
  let w' := World (engine w0) (round ++ round)%list in
  Transaction.commit 1 (t0, w0) = Returns tt (t, w)
  /\ Transaction.destructor 1 (t, w) = Returns tt (t, w')
  /\ issued "COMMIT;" w' = S (issued "COMMIT;" w).
Proof.
  intros t0 t w0 round w w'.
  destruct (destructor_commits_again_when_resolved
              t0 t w0 w w' 1 0 SQLITE_ERROR)
    as (_ & Hdestructor & Hissued & _).
  - left. reflexivity.
  - reflexivity.
  - discriminate.
  - discriminate.
  - split; [reflexivity | split; [exact Hdestructor | exact Hissued]].
Defined.

(** C5, as stated, fails: a ROLLBACK that the engine reports busy makes
    [rollback()] throw with the transaction still not done. *)
Lemma rollback_failure_leaves_active :
  ~ (forall (t : Transaction.t) (w : world) (s : Transaction.state),
       active t = true ->
       final_state (Transaction.rollback (t, w)) = Some s ->
       Transaction.done_ (fst s) = true).
Proof.
  intros H.
  specialize (H (Transaction.mk toy_db false) (fresh [] [SQLITE_BUSY]) _
                eq_refl eq_refl).
  discriminate H.
Qed.

(** C5, amended.  [rollback()] hands ROLLBACK to the engine exactly once,
    whatever the answer (a busy answer is not retried).  When the result is
    [SQLITE_OK] it returns and the transaction is done; on any other result
    it throws an [Error] carrying that result and the object is unchanged,
    so a transaction that was not done stays not done. *)
Theorem rollback_once :
  forall (t : Transaction.t) (w : world),
  exists (res : Z) (w' : world),
    Transaction.exec (Transaction.db_ t) "ROLLBACK;" w = Returns res w'
    /\ issued "ROLLBACK;" w' = S (issued "ROLLBACK;" w)
    /\ Transaction.rollback (t, w) =
         if res =? SQLITE_OK
         then Returns tt (Transaction.mk (Transaction.db_ t) true, w')
         else Throws (mkError res "rollback failed") (t, w').
Proof.
  intros t w.
  destruct (exec_returns (Transaction.db_ t) "ROLLBACK;" w)
    as (res & w' & Hexec & Hcount).
  exists res, w'. repeat split; [exact Hexec | exact Hcount |].
  unfold Transaction.rollback, bind, Transaction.this, Transaction.lift.
  simpl. rewrite Hexec.
  destruct (res =? SQLITE_OK); reflexivity.
Qed.

(** ** Column access *)

(** C4, as stated, fails: with no row positioned (the statement was never
    stepped) an index below the column count gives a [Value] and no error. *)
Lemma subscript_without_row_returns :
  ~ (forall (st : Statement.t) (idx : Z) (w : world),
       positioned w (Statement.stmt_ st) = false ->
       throws (Statement.operator_subscript st idx w) = true).
Proof.
  intros H.
  specialize (H (Statement.mk toy_select) 0 (fresh ["x"] []) eq_refl).
  discriminate H.
Qed.

(** C4, amended.  For an index below 2^31, [operator[]] throws the
    out-of-range [Error] when the statement holds no handle (without asking
    the engine) and when the index is not below the column count the engine
    reports; otherwise it returns the accessor for that column, whether or
    not a row is positioned.  In particular the index equal to the column
    count always throws. *)
Theorem operator_subscript_checks_count :
  forall (st : Statement.t) (idx : Z) (w : world),
    0 <= idx < 2 ^ 31 ->
    let count := sqlite3_column_count (Statement.stmt_ st) in
    let err := mkError SQLITE_ERROR
                 ("column index " ++ Statement.decimal idx
                  ++ " is out of range") in
    (is_null (Statement.stmt_ st) = true ->
       Statement.operator_subscript st idx w = Throws err w)
    /\ (is_null (Statement.stmt_ st) = false -> answer w count <= idx ->
       Statement.operator_subscript st idx w = Throws err (after w count))
    /\ (is_null (Statement.stmt_ st) = false -> idx < answer w count ->
       Statement.operator_subscript st idx w
         = Returns (Value.mk (Statement.stmt_ st) idx) (after w count))
    /\ (idx = answer w count ->
       throws (Statement.operator_subscript st idx w) = true).
Proof.
  intros st idx w Hidx count err.
  unfold Statement.operator_subscript.
  rewrite (to_int_small idx Hidx).
  repeat split.
  - intros ->. reflexivity.
  - intros -> Hge. rewrite bind_sqlite3. fold count.
    assert (E : (idx >=? answer w count) = true) by (apply Z.geb_le; exact Hge).
    rewrite E. reflexivity.
  - intros -> Hlt. rewrite bind_sqlite3. fold count.
    destruct (idx >=? answer w count) eqn:E; [| reflexivity].
    apply Z.geb_le in E. lia.
  - intros Heq. destruct (is_null (Statement.stmt_ st)); [reflexivity |].
    rewrite bind_sqlite3. fold count. rewrite <- Heq.
    assert (E : (idx >=? idx) = true) by (apply Z.geb_le; lia).
    rewrite E. reflexivity.
Qed.

(** A one-column statement, index 1: the index equals the column count. *)
Lemma operator_subscript_checks_count_witness :
  Statement.operator_subscript (Statement.mk toy_select) 1 (fresh ["x"] [])
    = Throws (mkError SQLITE_ERROR "column index 1 is out of range")
        (after (fresh ["x"] []) (sqlite3_column_count toy_select)).
Proof.
  destruct (operator_subscript_checks_count
              (Statement.mk toy_select) 1 (fresh ["x"] []))
    as (_ & Hge & _).
  - lia.
  - apply Hge.
    + reflexivity.
    + vm_compute. discriminate.
Defined.

(** Beyond the amended statement: the cast to [int] turns an index of 2^31
    or more into a negative number, which passes the comparison. *)
Example subscript_huge_index :
  Statement.operator_subscript (Statement.mk toy_select) (2 ^ 31)
    (fresh ["x"] [])
  = Returns (Value.mk toy_select (2 ^ 31))
      (after (fresh ["x"] []) (sqlite3_column_count toy_select)).
Proof. reflexivity. Qed.

(** ** Binding by name *)

Lemma bind_at (st : Statement.t) (pos : Z) (x : Statement.value) (w : world) :
  Statement.bind st pos x w =
    let setter := bind_call (Statement.stmt_ st) (to_int pos) x in
    let res := bind_result w (Statement.stmt_ st) (to_int pos) x in
    if res =? SQLITE_OK then Returns tt (after w setter)
    else Throws (mkError res (bind_message x)) (after w setter).
Proof.
  destruct x; unfold Statement.bind; rewrite bind_sqlite3;
    unfold Statement.check_bind; simpl;
    match goal with
    | |- context [negb (?r =? SQLITE_OK)] => destruct (r =? SQLITE_OK)
    end; reflexivity.
Qed.

(** The engine is asked about the bytes in front of the first zero byte. *)
Lemma c_str_spelled (seen : string) (tail : option string) :
  has_nul seen = false -> c_str (spelled seen tail) = seen.
Proof.
  intros H. destruct tail as [junk |]; simpl.
  - now apply c_str_middle.
  - now apply c_str_no_nul.
Qed.

(** The message, as [what()] shows it. *)
Lemma unknown_message (seen : string) (tail : option string) :
  has_nul seen = false ->
  c_str ("unknown parameter name '" ++ spelled seen tail ++ "'")
  = unknown_parameter seen tail.
Proof.
  intros H. unfold unknown_parameter.
  rewrite c_str_append by reflexivity. f_equal.
  destruct tail as [junk |]; simpl spelled.
  - rewrite append_assoc. simpl. now apply c_str_middle.
  - rewrite c_str_append by exact H. reflexivity.
Qed.

(** C6, as stated, fails: the statement of the small engine has the one
    parameter [":a"]; the name [":a"], a zero byte, ["bc"] is not a
    parameter of it (asked about these bytes the engine answers 0), and yet
    [bind] with that name does not throw: it binds the value at the
    position of [":a"]. *)
Lemma bind_name_absent_name_is_bound :
  ~ (forall (st : Statement.t) (name : string) (x : Statement.value)
            (w : world),
       answer w (sqlite3_bind_parameter_index (Statement.stmt_ st) name) = 0 ->
       throws (Statement.bind_name st name x w) = true
       /\ (forall w' : world,
             final_world (Statement.bind_name st name x w) = Some w' ->
             bindings w' = bindings w)).
Proof.
  intros H.
  destruct (H (Statement.mk toy_select) (":a" ++ String NUL "bc")
              (Statement.of_int32 3) (fresh [] []) eq_refl) as [Hthrows _].
  discriminate Hthrows.
Qed.

(** C6, amended.  [bind(name, value)] asks the engine for the position of
    the name as a C string: the name itself when it holds no zero byte, and
    otherwise its bytes in front of the first zero byte.  When the engine
    knows no such parameter (position 0), [bind] throws the
    unknown-parameter [Error] having made that one call only: no setter was
    called, so the bindings the engine holds are the ones it held before.
    When the engine answers a position [n], the setter for the value is
    called at exactly position [n], and the call succeeds or throws as that
    setter reports. *)
Theorem bind_name_resolves :
  forall (st : Statement.t) (seen : string) (tail : option string)
         (x : Statement.value) (w : world),
    has_nul seen = false ->
    let name := spelled seen tail in
    let lookup := sqlite3_bind_parameter_index (Statement.stmt_ st) seen in
    let n := answer w lookup in
    let w1 := after w lookup in
    - 2 ^ 31 <= n < 2 ^ 31 ->
    (n = 0 ->
       Statement.bind_name st name x w
         = Throws (mkError SQLITE_ERROR (unknown_parameter seen tail)) w1
       /\ bindings w1 = bindings w)
    /\ (n <> 0 ->
       let setter := bind_call (Statement.stmt_ st) n x in
       let res := bind_result w1 (Statement.stmt_ st) n x in
       Statement.bind_name st name x w
         = (if res =? SQLITE_OK then Returns tt (after w1 setter)
            else Throws (mkError res (bind_message x)) (after w1 setter))
       /\ bindings (after w1 setter) = (bindings w ++ [setter])%list).
Proof.
  intros st seen tail x w Hseen name lookup n w1 Hn.
  assert (Hlookup : bindings w1 = bindings w).
  { unfold bindings, w1, after. simpl.
    rewrite List.filter_app. simpl. apply List.app_nil_r. }
  unfold Statement.bind_name, name.
  rewrite (c_str_spelled seen tail Hseen), (unknown_message seen tail Hseen).
  rewrite bind_sqlite3.
  fold lookup. fold n. fold w1.
  split.
  - intros ->. split; [reflexivity | exact Hlookup].
  - intros Hnz. cbv zeta.
    apply Z.eqb_neq in Hnz. rewrite Hnz.
    rewrite bind_at. rewrite (to_int_to_unsigned n Hn).
    split; [reflexivity |].
    unfold bindings at 1, after at 1. simpl.
    rewrite List.filter_app.
    change (List.filter is_bind (log w ++ [lookup])%list) with (bindings w1).
    rewrite Hlookup. f_equal. destruct x; reflexivity.
Qed.

(** The statement of the small engine knows [":a"] at position 1 and nothing
    else: binding [":b"] throws after the lookup alone; binding [":a"]
    calls the integer setter at position 1, and so does binding [":a"]
    followed by a zero byte and ["bc"]. *)
Lemma bind_name_resolves_witness :
  let st := Statement.mk toy_select in
  let w := fresh [] [] in
  Statement.bind_name st ":b" (Statement.of_int32 3) w
    = Throws (mkError SQLITE_ERROR "unknown parameter name ':b'")
        (after w (sqlite3_bind_parameter_index toy_select ":b"))
  /\ Statement.bind_name st ":a" (Statement.of_int32 3) w
    = Returns tt
        (after (after w (sqlite3_bind_parameter_index toy_select ":a"))
           (sqlite3_bind_int toy_select 1 3))
  /\ Statement.bind_name st (":a" ++ String NUL "bc") (Statement.of_int32 3) w
    = Returns tt
        (after (after w (sqlite3_bind_parameter_index toy_select ":a"))
           (sqlite3_bind_int toy_select 1 3)).
Proof.
  intros st w. split; [| split].
  - destruct (bind_name_resolves st ":b" None (Statement.of_int32 3) w)
      as [Habsent _].
    + reflexivity.
    + vm_compute. split; [discriminate | reflexivity].
    + apply Habsent. reflexivity.
  - destruct (bind_name_resolves st ":a" None (Statement.of_int32 3) w)
      as [_ Hpresent].
    + reflexivity.
    + vm_compute. split; [discriminate | reflexivity].
    + apply Hpresent. vm_compute. discriminate.
  - destruct (bind_name_resolves st ":a" (Some "bc") (Statement.of_int32 3) w)
      as [_ Hpresent].
    + reflexivity.
    + vm_compute. split; [discriminate | reflexivity].
    + apply Hpresent. vm_compute. discriminate.
Defined.

(** ** Reading text *)

(** [as_text] in terms of the answers of the engine. *)
Lemma as_text_unfold (v : Value.t) (w : world) :
  let w1 := after w (column_text_of v) in
  let w2 := kind_asked v w1 in
  Value.as_text v w =
    match answer w (column_text_of v) with
    | None => Returns "" w1
    | Some data =>
        if text_or_blob v w1 then
          string_of_ptr_len data (to_size_t (answer w2 (column_bytes_of v)))
            (after w2 (column_bytes_of v))
        else string_of_cstr data w2
    end.
Proof.
  intros w1 w2. unfold Value.as_text. rewrite bind_sqlite3.
  fold (column_text_of v). fold w1.
  destruct (answer w (column_text_of v)) as [data |]; [| reflexivity].
  unfold Value.is_text, Value.is_blob, Value.type, bind, sqlite3, ret.
  fold (column_type_of v). fold (column_bytes_of v).
  unfold w2, kind_asked, text_or_blob.
  destruct (answer w1 (column_type_of v) =? SQLITE_TEXT); [reflexivity |].
  destruct (answer (after w1 (column_type_of v)) (column_type_of v)
            =? SQLITE_BLOB); reflexivity.
Qed.

(** A cell the engine presents as the Text or Blob value [s] reads back as
    [s], byte for byte. *)
Lemma as_text_presents (v : Value.t) (w : world) (s : string) :
  size s < 2 ^ 31 ->
  presents v w s ->
  Value.as_text v w =
    Returns s
      (after (kind_asked v (after w (column_text_of v))) (column_bytes_of v)).
Proof.
  intros Hsize (Hdata & Hkind & Hlen).
  rewrite as_text_unfold. cbv zeta. rewrite Hdata, Hkind, Hlen.
  rewrite to_size_t_small by (unfold size in *; lia).
  rewrite string_of_ptr_len_ok by (rewrite size_terminated; lia).
  unfold size. rewrite Nat2Z.id. unfold terminated.
  now rewrite substring_prefix.
Qed.

(** C7.  [as_text] first asks for the text pointer.  With no pointer it
    returns the empty text.  With a pointer and a kind of Text or Blob it
    asks for the length and returns exactly that many bytes from the
    pointer, zero bytes included; so a cell holding the text [s] reads back
    as [s] itself.  With a pointer and any other kind it returns the bytes
    in front of the first zero byte: when the pointer leads to [pre], a
    zero byte and whatever follows, with no zero byte in [pre], the result
    is [pre]. *)
Theorem as_text_bytes :
  forall (v : Value.t) (w : world),
    let w1 := after w (column_text_of v) in
    let w2 := kind_asked v w1 in
    let len := answer w2 (column_bytes_of v) in
    (answer w (column_text_of v) = None ->
       Value.as_text v w = Returns "" w1)
    /\ (forall data : string,
          answer w (column_text_of v) = Some data ->
          text_or_blob v w1 = true ->
          0 <= len < 2 ^ 31 -> len <= size data ->
          Value.as_text v w
            = Returns (substring 0 (Z.to_nat len) data)
                (after w2 (column_bytes_of v)))
    /\ (forall pre rest : string,
          answer w (column_text_of v) = Some (pre ++ String NUL rest) ->
          text_or_blob v w1 = false ->
          has_nul pre = false ->
          Value.as_text v w = Returns pre w2)
    /\ (forall s : string,
          size s < 2 ^ 31 ->
          presents v w s ->
          Value.as_text v w = Returns s (after w2 (column_bytes_of v))).
Proof.
  intros v w w1 w2 len.
  pose proof (as_text_unfold v w) as H. cbv zeta in H.
  fold w1 in H. fold w2 in H. fold len in H.
  repeat split.
  - intros Hnone. rewrite H, Hnone. reflexivity.
  - intros data Hdata Hkind Hlen Hfits.
    rewrite H, Hdata, Hkind, (to_size_t_small len Hlen).
    now apply string_of_ptr_len_ok.
  - intros pre rest Hdata Hkind Hpre.
    rewrite H, Hdata, Hkind.
    rewrite string_of_cstr_ok by apply has_nul_middle.
    now rewrite c_str_middle.
  - intros s Hsize Hs. now apply as_text_presents.
Qed.

(** Two cells.  The row ["a\0b"] of the small engine, three bytes with a
    zero byte in the middle, presented as Text: [as_text] returns all
    three.  The number 42 of the engine of integers, whose text pointer
    leads to the digits and their terminator: [as_text] returns the two
    digits, having asked for the kind twice and not for the length. *)
Lemma as_text_bytes_witness :
  let s := String "a" (String NUL (String "b" "")) in
  let v := Value.mk toy_select 0 in
  Value.as_text v (World (toy [s] []) [sqlite3_step toy_select])
    = Returns s
        (World (toy [s] [])
           [sqlite3_step toy_select; sqlite3_column_text toy_select 0;
            sqlite3_column_type toy_select 0;
            sqlite3_column_bytes toy_select 0])
  /\ Value.as_text v (World (integers ["42"] []) [sqlite3_step toy_select])
    = Returns "42"
        (World (integers ["42"] [])
           [sqlite3_step toy_select; sqlite3_column_text toy_select 0;
            sqlite3_column_type toy_select 0;
            sqlite3_column_type toy_select 0]).
Proof.
  intros s v. split.
  - destruct (as_text_bytes v (World (toy [s] []) [sqlite3_step toy_select]))
      as (_ & _ & _ & Hround).
    apply (Hround s).
    + reflexivity.
    + repeat split.
  - destruct (as_text_bytes v
                (World (integers ["42"] []) [sqlite3_step toy_select]))
      as (_ & _ & Hother & _).
    apply (Hother "42" "").
    + reflexivity.
    + reflexivity.
    + reflexivity.
Defined.

(** ** Single-call execution *)

Lemma steps_of_after (stmt : ptr) (w : world) (c : call) :
  steps_of stmt (log (after w c)) =
    (steps_of stmt (log w) + (if is_step_of stmt c then 1 else 0))%nat.
Proof.
  unfold steps_of, after. simpl.
  rewrite List.filter_app, List.length_app. simpl.
  destruct (is_step_of stmt c); reflexivity.
Qed.

(** [exec] in terms of the answers of the engine. *)
Lemma exec_unfold (st : Statement.t) (w : world) :
  let step := sqlite3_step (Statement.stmt_ st) in
  let count := sqlite3_column_count (Statement.stmt_ st) in
  let text0 := sqlite3_column_text (Statement.stmt_ st) 0 in
  let w1 := after w step in
  let w2 := after w1 count in
  let w3 := after w2 text0 in
  Statement.exec st w =
    if answer w step =? SQLITE_DONE then Returns "" w1
    else if answer w step =? SQLITE_ROW then
      if answer w1 count =? 0 then Returns "" w2
      else match answer w2 text0 with
           | None => Returns "" w3
           | Some data => string_of_cstr data w3
           end
    else Throws (mkError (answer w step) "execution failed") w1.
Proof.
  cbv zeta. unfold Statement.exec, bind, sqlite3, ret, throw.
  destruct (answer w (sqlite3_step _) =? SQLITE_DONE); [reflexivity |].
  destruct (answer w (sqlite3_step _) =? SQLITE_ROW); [| reflexivity].
  destruct (answer _ (sqlite3_column_count _) =? 0); [reflexivity |].
  cbn [negb].
  destruct (answer _ (sqlite3_column_text _ 0)); reflexivity.
Qed.



(** C10.  Let the step of [exec] answer a row whose column 0 holds
    [pre ++ NUL ++ post], with no zero byte in [pre].  Then [exec] returns
    [pre] only: it stops at the zero byte.  [as_text] on the same cell,
    which the engine presents as Text or Blob with those bytes, returns all
    of them; and the two results differ. *)
Theorem exec_stops_at_zero_byte :
  forall (st : Statement.t) (w w' : world) (pre post : string),
    let s := pre ++ String NUL post in
    let cell := Value.mk (Statement.stmt_ st) 0 in
    let step := sqlite3_step (Statement.stmt_ st) in
    let count := sqlite3_column_count (Statement.stmt_ st) in
    let text0 := sqlite3_column_text (Statement.stmt_ st) 0 in
    has_nul pre = false ->
    size s < 2 ^ 31 ->
    answer w step = SQLITE_ROW ->
    answer (after w step) count <> 0 ->
    answer (after (after w step) count) text0 = Some (terminated s) ->
    presents cell w' s ->
    Statement.exec st w
      = Returns pre (after (after (after w step) count) text0)
    /\ Value.as_text cell w'
      = Returns s
          (after (kind_asked cell (after w' (column_text_of cell)))
             (column_bytes_of cell))
    /\ pre <> s.
Proof.
  intros st w w' pre post s cell step count text0
    Hpre Hsize Hrow Hcount Htext Hcell.
  split; [| split].
  - rewrite exec_unfold. cbv zeta.
    fold step. fold count. fold text0.
    apply Z.eqb_neq in Hcount.
    rewrite Hrow, Hcount, Htext. simpl.
    rewrite string_of_cstr_ok by apply has_nul_terminated.
    unfold terminated, s. rewrite append_assoc.
    simpl. now rewrite c_str_middle.
  - now apply as_text_presents.
  - apply middle_longer.
Qed.

(** The row ["a\0b"] of the small engine: [exec] returns ["a"], [as_text]
    after it returns the three bytes. *)
Lemma exec_stops_at_zero_byte_witness :
  let s := String "a" (String NUL (String "b" "")) in
  let st := Statement.mk toy_select in
  let w := fresh [s] [] in
  let w' := World (engine w)
              [sqlite3_step toy_select; sqlite3_column_count toy_select;
               sqlite3_column_text toy_select 0] in
  Statement.exec st w = Returns "a" w'
  /\ Value.as_text (Value.mk toy_select 0) w'
     = Returns s
         (World (engine w)
            [sqlite3_step toy_select; sqlite3_column_count toy_select;
             sqlite3_column_text toy_select 0;
             sqlite3_column_text toy_select 0;
             sqlite3_column_type toy_select 0;
             sqlite3_column_bytes toy_select 0]).
Proof.
  intros s st w w'.
  destruct (exec_stops_at_zero_byte st w w' "a" "b")
    as (Hexec & Htext & _).
  - reflexivity.
  - reflexivity.
  - reflexivity.
  - vm_compute. discriminate.
  - reflexivity.
  - repeat split.
  - split; [exact Hexec | exact Htext].
Defined.

(** * Further properties of the wrapper *)

(** ** Iteration and stepping *)

(** X1.  For every statement and every loop body: when the body returns on
    the statement as it stands, the range-based loop has entered it there
    first and then goes on exactly like [while (st.step()) body(st)] from
    the world the body left: the same rows after the first, the same end.
    So it enters the body once more than the step-driven loop does. *)
Theorem range_for_rows :
  forall (body : Statement.t -> M world unit) (fuel : nat) (st : Statement.t)
         (w w1 : world),
    body st w = Returns tt w1 ->
    Statement.range_for body (S fuel) st w
      = (w :: fst (Statement.step_while body fuel st w1),
         snd (Statement.step_while body fuel st w1))
    /\ List.length (fst (Statement.range_for body (S fuel) st w))
       = S (List.length (fst (Statement.step_while body fuel st w1))).
Proof.
  intros body fuel st w w1 Hbody.
  rewrite range_for_unfold, Hbody. split; reflexivity.
Qed.

(** Three rows, a body that reads column 0 of each row it is given. *)
Lemma range_for_rows_witness :
  let st := Statement.mk toy_select in
  let w := fresh ["x"; "y"; "z"] [] in
  let body := fun row : Statement.t =>
                v <- Statement.operator_subscript row 0 ;;
                Value.as_text v ;;; ret tt in
  List.length (fst (Statement.range_for body 9 st w)) = 4%nat
  /\ List.length (fst (Statement.step_while body 9 st w)) = 3%nat.
Proof.
  intros st w body.
  destruct (range_for_rows body 8 st w
              (World (engine w)
                 [sqlite3_column_count toy_select;
                  sqlite3_column_text toy_select 0]))
    as [_ Hlen].
  - reflexivity.
  - split; [rewrite Hlen |]; reflexivity.
Defined.

(** X2.  [exec] fails exactly as [step] does: on the same world they throw
    the same [Error] and end in the same world, and whenever [step] returns
    [exec] does not throw.  When [step] would return false, [exec] returns
    the empty text having made the same single call. *)
Theorem exec_throws_as_step :
  forall (st : Statement.t) (w : world),
    (forall (e : Error) (w' : world),
       Statement.exec st w = Throws e w' <-> Statement.step st w = Throws e w')
    /\ (forall w' : world,
       Statement.step st w = Returns false w' ->
       Statement.exec st w = Returns "" w').
Proof.
  intros st w.
  pose proof (exec_unfold st w) as Hexec. cbv zeta in Hexec.
  assert (Hstep : Statement.step st w =
            if answer w (sqlite3_step (Statement.stmt_ st)) =? SQLITE_ROW
            then Returns true (after w (sqlite3_step (Statement.stmt_ st)))
            else if answer w (sqlite3_step (Statement.stmt_ st)) =? SQLITE_DONE
            then Returns false (after w (sqlite3_step (Statement.stmt_ st)))
            else Throws (mkError (answer w (sqlite3_step (Statement.stmt_ st)))
                           "execution failed")
                   (after w (sqlite3_step (Statement.stmt_ st)))).
  { unfold Statement.step. rewrite bind_sqlite3.
    destruct (answer w (sqlite3_step (Statement.stmt_ st)) =? SQLITE_ROW);
      [reflexivity |].
    destruct (answer w (sqlite3_step (Statement.stmt_ st)) =? SQLITE_DONE);
      reflexivity. }
  rewrite Hexec, Hstep. clear Hexec Hstep.
  destruct (answer w (sqlite3_step (Statement.stmt_ st)) =? SQLITE_DONE) eqn:Hd.
  - apply Z.eqb_eq in Hd. rewrite Hd. simpl. split.
    + intros e w'. split; discriminate.
    + intros w' H. injection H as <-. reflexivity.
  - destruct (answer w (sqlite3_step (Statement.stmt_ st)) =? SQLITE_ROW).
    + split; [| discriminate].
      intros e w'. split; [| discriminate].
      destruct (answer _ (sqlite3_column_count _) =? 0); [discriminate |].
      destruct (answer _ (sqlite3_column_text _ 0)) as [data |];
        [| discriminate].
      unfold string_of_cstr. destruct (has_nul data); discriminate.
    + split; [| discriminate].
      intros e w'. split; intros H; injection H as <- <-; reflexivity.
Qed.

(** ** Reading blobs *)

Lemma append_empty (s : string) : s ++ "" = s.
Proof.
  induction s as [| c s IH]; simpl; [reflexivity | now rewrite IH].
Qed.

Lemma substring_all (s : string) : substring 0 (String.length s) s = s.
Proof.
  rewrite <- (append_empty s) at 2. apply substring_prefix.
Qed.

(** X3.  [as_blob] asks for the blob pointer and, if there is one, for the
    length, and returns exactly that many bytes from the pointer.  It never
    asks for the kind of the cell and needs no terminator: a region holding
    just the bytes [s], with length [size s], reads back as [s].  With no
    pointer (as for an empty blob) it returns the empty string without
    asking for the length. *)
Theorem as_blob_bytes :
  forall (v : Value.t) (w : world),
    let blob := sqlite3_column_blob (Value.stmt_ v) (to_int (Value.index_ v)) in
    let w1 := after w blob in
    let len := answer w1 (column_bytes_of v) in
    (answer w blob = None -> Value.as_blob v w = Returns "" w1)
    /\ (forall data : string,
          answer w blob = Some data ->
          0 <= len < 2 ^ 31 -> len <= size data ->
          Value.as_blob v w
            = Returns (substring 0 (Z.to_nat len) data)
                (after w1 (column_bytes_of v)))
    /\ (forall s : string,
          answer w blob = Some s ->
          size s < 2 ^ 31 -> len = size s ->
          Value.as_blob v w = Returns s (after w1 (column_bytes_of v))).
Proof.
  intros v w blob w1 len.
  assert (H : Value.as_blob v w =
            match answer w blob with
            | None => Returns "" w1
            | Some data =>
                string_of_ptr_len data (to_size_t len)
                  (after w1 (column_bytes_of v))
            end).
  { unfold Value.as_blob. rewrite bind_sqlite3. fold blob. fold w1.
    destruct (answer w blob); reflexivity. }
  split; [| split].
  - intros Hnone. rewrite H, Hnone. reflexivity.
  - intros data Hdata Hlen Hfits.
    rewrite H, Hdata, (to_size_t_small len Hlen).
    now apply string_of_ptr_len_ok.
  - intros s Hdata Hsize Hlen.
    assert (Hrange : 0 <= len < 2 ^ 31) by (unfold size in *; lia).
    rewrite H, Hdata, (to_size_t_small len Hrange).
    rewrite string_of_ptr_len_ok by lia.
    rewrite Hlen. unfold size. rewrite Nat2Z.id.
    now rewrite substring_all.
Qed.

(** The row ["a\0b"] of the small engine read as a blob: three bytes. *)
Lemma as_blob_bytes_witness :
  let s := String "a" (String NUL (String "b" "")) in
  let v := Value.mk toy_select 0 in
  let w := World (toy [s] []) [sqlite3_step toy_select] in
  Value.as_blob v w =
    Returns s
      (World (toy [s] [])
         [sqlite3_step toy_select; sqlite3_column_blob toy_select 0;
          sqlite3_column_bytes toy_select 0]).
Proof.
  intros s v w.
  destruct (as_blob_bytes v w) as (_ & Hbytes & _).
  apply (Hbytes (terminated s)).
  - reflexivity.
  - vm_compute. split; [discriminate | reflexivity].
  - vm_compute. discriminate.
Defined.

(** ** Ownership of the statement handle *)

Lemma finalized_after (stmt : ptr) (w : world) (c : call) :
  finalized stmt (after w c) =
    (finalized stmt w + (if is_finalize_of stmt c then 1 else 0))%nat.
Proof.
  unfold finalized, after. simpl.
  rewrite List.filter_app, List.length_app. simpl.
  destruct (is_finalize_of stmt c); reflexivity.
Qed.

(** X4.  Moving a [Statement] hands its pointer to the new object and
    leaves the source empty.  Destroying the moved-from source calls
    nothing; destroying the new object does what destroying the original
    would have done.  So after the move and both destructions a non-null
    handle has been finalized exactly once. *)
Theorem statement_move_finalizes_once :
  forall (st : Statement.t) (w : world),
    let dst := fst (Lifetime.move_constructor st) in
    let src := snd (Lifetime.move_constructor st) in
    Lifetime.destructor src w = Returns tt w
    /\ Lifetime.destructor dst w = Lifetime.destructor st w
    /\ (Lifetime.destructor src ;;; Lifetime.destructor dst) w
       = (if is_null (Statement.stmt_ st) then Returns tt w
          else Returns tt (after w (sqlite3_finalize (Statement.stmt_ st))))
    /\ (is_null (Statement.stmt_ st) = false ->
        finalized (Statement.stmt_ st)
          (after w (sqlite3_finalize (Statement.stmt_ st)))
        = S (finalized (Statement.stmt_ st) w)).
Proof.
  intros [h] w. simpl.
  unfold Lifetime.destructor, bind. simpl.
  repeat split.
  - destruct (is_null h); reflexivity.
  - intros _. rewrite finalized_after. simpl. rewrite Z.eqb_refl. lia.
Qed.

(** X5.  A move assignment between two statements with different non-null
    handles finalizes the handle the destination had, gives it the handle
    of the source and empties the source.  When both objects are destroyed
    afterwards, each of the two handles has been finalized exactly once and
    no other handle was touched. *)
Theorem statement_move_assign_finalizes_each_once :
  forall (dst src : Statement.t) (w : world),
    let a := Statement.stmt_ dst in
    let b := Statement.stmt_ src in
    is_null a = false ->
    is_null b = false ->
    a <> b ->
    let w1 := after w (sqlite3_finalize a) in
    let w2 := after w1 (sqlite3_finalize b) in
    Lifetime.move_assign dst src w
      = Returns (Statement.mk b, Statement.mk nullptr) w1
    /\ (r <- Lifetime.move_assign dst src ;;
        Lifetime.destructor (snd r) ;;; Lifetime.destructor (fst r)) w
       = Returns tt w2
    /\ finalized a w2 = S (finalized a w)
    /\ finalized b w2 = S (finalized b w)
    /\ (forall h : ptr, h <> a -> h <> b -> finalized h w2 = finalized h w).
Proof.
  intros [a] [b] w. simpl. intros Ha Hb Hab.
  unfold Lifetime.move_assign, Lifetime.destructor, Lifetime.STMTFinalizer,
    bind, sqlite3, ret. cbn [Statement.stmt_ fst snd]. rewrite Ha.
  cbn [Statement.stmt_ fst snd]. rewrite Hb.
  change (is_null nullptr) with true. cbv iota.
  assert (Eab : (a =? b) = false) by (apply Z.eqb_neq; exact Hab).
  assert (Eba : (b =? a) = false) by (apply Z.eqb_neq; congruence).
  repeat split.
  - rewrite !finalized_after. simpl. rewrite Z.eqb_refl, Eba. lia.
  - rewrite !finalized_after. simpl. rewrite Z.eqb_refl, Eab. lia.
  - intros h Hha Hhb. rewrite !finalized_after. simpl.
    apply Z.eqb_neq in Hha, Hhb.
    rewrite (Z.eqb_sym a h), (Z.eqb_sym b h), Hha, Hhb. lia.
Qed.

Lemma statement_move_assign_finalizes_each_once_witness :
  let w := fresh [] [] in
  (r <- Lifetime.move_assign (Statement.mk toy_select) (Statement.mk toy_stmt) ;;
   Lifetime.destructor (snd r) ;;; Lifetime.destructor (fst r)) w
  = Returns tt
      (World (engine w) [sqlite3_finalize toy_select; sqlite3_finalize toy_stmt]).
Proof.
  intros w.
  destruct (statement_move_assign_finalizes_each_once
              (Statement.mk toy_select) (Statement.mk toy_stmt) w)
    as (_ & Hboth & _).
  - reflexivity.
  - reflexivity.
  - discriminate.
  - exact Hboth.
Defined.

(** ** Preparing with arguments *)

Lemma after_after_all (w : world) (cs : list call) (c : call) :
  after (after_all w cs) c = after_all w (cs ++ [c]).
Proof.
  unfold after, after_all. simpl. now rewrite List.app_assoc.
Qed.

Lemma after_all_after (w : world) (c : call) (cs : list call) :
  after_all (after w c) cs = after_all w (c :: cs).
Proof.
  unfold after, after_all. simpl. now rewrite <- List.app_assoc.
Qed.

Lemma after_all_app (w : world) (cs ds : list call) :
  after_all (after_all w cs) ds = after_all w (cs ++ ds).
Proof.
  unfold after_all. simpl. now rewrite List.app_assoc.
Qed.

Lemma finalized_after_all (stmt : ptr) (w : world) (cs : list call) :
  finalized stmt (after_all w cs) =
    (finalized stmt w
     + List.length (List.filter (is_finalize_of stmt) cs))%nat.
Proof.
  unfold finalized, after_all. simpl.
  now rewrite List.filter_app, List.length_app.
Qed.

Lemma bindings_after_all (w : world) (cs : list call) :
  bindings (after_all w cs) = (bindings w ++ List.filter is_bind cs)%list.
Proof.
  unfold bindings, after_all. simpl. apply List.filter_app.
Qed.

Lemma bind_call_is_bind (stmt : ptr) (pos : Z) (x : Statement.value) :
  is_bind (bind_call stmt pos x) = true.
Proof. destruct x; reflexivity. Qed.

Lemma bind_call_not_finalize (h stmt : ptr) (pos : Z) (x : Statement.value) :
  is_finalize_of h (bind_call stmt pos x) = false.
Proof. destruct x; reflexivity. Qed.

Lemma setters_all_bind (stmt : ptr) (args : list Statement.value) :
  forall (idx : Z) (k : nat),
    List.filter is_bind (List.firstn k (setters stmt idx args))
    = List.firstn k (setters stmt idx args).
Proof.
  induction args as [| x args IH]; intros idx [| k]; simpl; try reflexivity.
  rewrite bind_call_is_bind. now rewrite IH.
Qed.

Lemma setters_no_finalize (h stmt : ptr) (args : list Statement.value) :
  forall (idx : Z) (k : nat),
    List.filter (is_finalize_of h) (List.firstn k (setters stmt idx args)) = [].
Proof.
  induction args as [| x args IH]; intros idx [| k]; simpl; try reflexivity.
  rewrite bind_call_not_finalize. apply IH.
Qed.

Lemma setters_length (stmt : ptr) (args : list Statement.value) :
  forall idx : Z, List.length (setters stmt idx args) = List.length args.
Proof.
  induction args as [| x args IH]; intros idx; simpl;
    [reflexivity | now rewrite IH].
Qed.

(** [bind_all] binds from left to right and stops at the first setter the
    engine refuses. *)
Lemma bind_all_cases (args : list Statement.value) :
  forall (st : Statement.t) (idx : Z) (w : world),
    0 <= idx ->
    idx + Z.of_nat (List.length args) <= 2 ^ 31 ->
    match DB.bind_all st idx args w with
    | Returns _ w' =>
        w' = after_all w (setters (Statement.stmt_ st) idx args)
    | Throws e w' =>
        code e <> SQLITE_OK
        /\ exists k : nat,
             (k < List.length args)%nat
             /\ w' = after_all w
                       (List.firstn (S k)
                          (setters (Statement.stmt_ st) idx args))
    | _ => False
    end.
Proof.
  induction args as [| x args IH]; intros st idx w Hidx Hlen.
  - simpl. unfold ret, after_all. destruct w as [eng l]. simpl.
    now rewrite List.app_nil_r.
  - simpl DB.bind_all. unfold bind at 1. rewrite bind_at. cbv zeta.
    simpl List.length in Hlen.
    rewrite (to_int_small idx) by lia.
    destruct (bind_result w (Statement.stmt_ st) idx x =? SQLITE_OK) eqn:Hres.
    + assert (Hnext : to_unsigned (idx + 1) = idx + 1).
      { unfold to_unsigned. apply Z.mod_small. lia. }
      rewrite Hnext.
      specialize (IH st (idx + 1)
                    (after w (bind_call (Statement.stmt_ st) idx x))).
      destruct (DB.bind_all st (idx + 1) args
                  (after w (bind_call (Statement.stmt_ st) idx x)))
        as [[] w' | e w' | |].
      * rewrite IH by lia. simpl setters. apply after_all_after.
      * destruct IH as (Hcode & k & Hk & Hw'); try lia.
        split; [exact Hcode |]. exists (S k). split; [simpl; lia |].
        rewrite Hw'. simpl setters. apply after_all_after.
      * apply IH; lia.
      * apply IH; lia.
    + split.
      * simpl. apply Z.eqb_neq. exact Hres.
      * exists 0%nat. split; [simpl; lia |].
        simpl. unfold after, after_all. reflexivity.
Qed.

(** The ways [prepare] with arguments can end. *)
Lemma prepare_args_cases (db : DB.t) (sql : string)
    (args : list Statement.value) (w : world) :
  Z.of_nat (List.length args) < 2 ^ 31 ->
  let prep := sqlite3_prepare_v2 (DB.db_ db) sql (to_int (size sql)) in
  let res := fst (answer w prep) in
  let h := snd (answer w prep) in
  let w1 := after w prep in
  match DB.prepare_args db sql args w with
  | Returns st w' =>
      res = SQLITE_OK /\ st = Statement.mk h
      /\ w' = after_all w1 (setters h 1 args)
  | Throws e w' =>
      code e <> SQLITE_OK
      /\ ((res <> SQLITE_OK /\ code e = res /\ w' = w1)
          \/ (res = SQLITE_OK
              /\ exists k : nat,
                   (k < List.length args)%nat
                   /\ w' = after_all w1
                             (List.firstn (S k) (setters h 1 args)
                              ++ (if is_null h then []
                                  else [sqlite3_finalize h]))))
  | _ => False
  end.
Proof.
  intros Hlen prep res h w1.
  unfold DB.prepare_args, DB.prepare. unfold bind at 1.
  rewrite bind_sqlite3. fold prep. fold w1.
  unfold res, h. destruct (answer w prep) as [r hst]. simpl fst. simpl snd.
  destruct (r =? SQLITE_OK) eqn:Hr; cbn [negb]; cbv beta iota.
  - apply Z.eqb_eq in Hr. unfold ret at 1.
    pose proof (bind_all_cases args (Statement.mk hst) 1 w1) as Hall.
    destruct (DB.bind_all (Statement.mk hst) 1 args w1)
      as [[] w' | e w' | |].
    + split; [exact Hr | split; [reflexivity | apply Hall; lia]].
    + destruct Hall as (Hcode & k & Hk & Hw'); try lia.
      unfold bind, Lifetime.destructor, Lifetime.STMTFinalizer, throw, ret.
      cbn [Statement.stmt_] in *.
      destruct (is_null hst).
      * split; [exact Hcode |]. right. split; [exact Hr |].
        exists k. split; [exact Hk |]. now rewrite List.app_nil_r.
      * unfold bind, sqlite3. split; [exact Hcode |].
        right. split; [exact Hr |].
        exists k. split; [exact Hk |].
        rewrite Hw'. apply after_after_all.
    + apply Hall; lia.
    + apply Hall; lia.
  - apply Z.eqb_neq in Hr. unfold throw.
    split; [exact Hr |]. left.
    split; [exact Hr | split; reflexivity].
Qed.

(** X6.  When [prepare] with arguments returns a statement, the engine
    prepared the text successfully and gave that statement's handle, and the
    only calls made after it are the setters of the arguments, one each,
    from left to right, at positions 1, 2, 3 and so on.  Nothing was
    finalized. *)
Theorem prepare_args_binds_in_order :
  forall (db : DB.t) (sql : string) (args : list Statement.value)
         (w w' : world) (st : Statement.t),
    Z.of_nat (List.length args) < 2 ^ 31 ->
    DB.prepare_args db sql args w = Returns st w' ->
    let prep := sqlite3_prepare_v2 (DB.db_ db) sql (to_int (size sql)) in
    answer w prep = (SQLITE_OK, Statement.stmt_ st)
    /\ w' = after_all (after w prep) (setters (Statement.stmt_ st) 1 args)
    /\ bindings w' = (bindings w ++ setters (Statement.stmt_ st) 1 args)%list
    /\ (forall h : ptr, finalized h w' = finalized h w).
Proof.
  intros db sql args w w' st Hlen Hret prep.
  pose proof (prepare_args_cases db sql args w Hlen) as H. cbv zeta in H.
  fold prep in H. rewrite Hret in H.
  destruct H as (Hres & Hst & Hw').
  subst st. simpl Statement.stmt_.
  assert (Hall : forall l : list call, List.firstn (List.length l) l = l)
    by (intros l; apply List.firstn_all).
  split; [| split; [exact Hw' | split]].
  - destruct (answer w prep) as [r h]. simpl in *. now subst r.
  - rewrite Hw', bindings_after_all.
    rewrite <- (Hall (setters _ 1 args)) at 1.
    rewrite setters_all_bind, Hall.
    unfold bindings, after. simpl. rewrite List.filter_app. simpl.
    now rewrite List.app_nil_r.
  - intros h. rewrite Hw', finalized_after_all.
    rewrite <- (Hall (setters _ 1 args)).
    rewrite setters_no_finalize. rewrite finalized_after. simpl. lia.
Qed.

(** The insertion of the unit test: a text, a double and an integer. *)
Lemma prepare_args_binds_in_order_witness :
  let w := fresh [] [] in
  let sql := "INSERT INTO test VALUES(null, ?, ?, ?);" in
  let args := [Statement.of_string "t_0"; Statement.of_double 0;
               Statement.of_int32 0] in
  let w' := World (engine w)
              [sqlite3_prepare_v2 toy_db sql 39;
               sqlite3_bind_text toy_stmt 1 "t_0" 3;
               sqlite3_bind_double toy_stmt 2 0;
               sqlite3_bind_int toy_stmt 3 0] in
  DB.prepare_args (DB.mk toy_db) sql args w = Returns (Statement.mk toy_stmt) w'
  /\ bindings w' = [sqlite3_bind_text toy_stmt 1 "t_0" 3;
                    sqlite3_bind_double toy_stmt 2 0;
                    sqlite3_bind_int toy_stmt 3 0]
  /\ finalized toy_stmt w' = 0%nat.
Proof.
  intros w sql args w'.
  assert (Hret : DB.prepare_args (DB.mk toy_db) sql args w
                 = Returns (Statement.mk toy_stmt) w')
    by reflexivity.
  destruct (prepare_args_binds_in_order (DB.mk toy_db) sql args w _ _
              ltac:(vm_compute; reflexivity) Hret)
    as (_ & _ & Hbindings & Hfinalized).
  split; [exact Hret | split].
  - exact Hbindings.
  - exact (Hfinalized toy_stmt).
Defined.

(** X7.  When [prepare] with arguments throws, the [Error] never carries
    [SQLITE_OK].  If the text itself was refused, that was the only call and
    the [Error] carries the engine's answer.  If the text was prepared, then
    some setter was refused: the setters up to and including that one were
    called, the arguments after it were not bound, and the handle the engine
    had given was finalized, once, as the last call, so it does not
    leak. *)
Theorem prepare_args_failure_finalizes :
  forall (db : DB.t) (sql : string) (args : list Statement.value)
         (w w' : world) (e : Error),
    Z.of_nat (List.length args) < 2 ^ 31 ->
    DB.prepare_args db sql args w = Throws e w' ->
    let prep := sqlite3_prepare_v2 (DB.db_ db) sql (to_int (size sql)) in
    let h := snd (answer w prep) in
    code e <> SQLITE_OK
    /\ (fst (answer w prep) <> SQLITE_OK ->
        w' = after w prep /\ code e = fst (answer w prep))
    /\ (fst (answer w prep) = SQLITE_OK -> is_null h = false ->
        finalized h w' = S (finalized h w)
        /\ exists k : nat,
             (k < List.length args)%nat
             /\ w' = after_all (after w prep)
                       (List.firstn (S k) (setters h 1 args)
                        ++ [sqlite3_finalize h])).
Proof.
  intros db sql args w w' e Hlen Hthrow prep h.
  pose proof (prepare_args_cases db sql args w Hlen) as H. cbv zeta in H.
  fold prep in H. fold h in H. rewrite Hthrow in H.
  destruct H as (Hcode & [(Hres & He & Hw') | (Hres & k & Hk & Hw')]).
  - split; [exact Hcode | split].
    + intros _. split; [exact Hw' | exact He].
    + intros Hok. contradiction.
  - split; [exact Hcode | split].
    + intros Hbad. contradiction.
    + intros _ Hnull. rewrite Hnull in Hw'. split.
      * rewrite Hw', finalized_after_all, List.filter_app, List.length_app.
        rewrite setters_no_finalize, finalized_after. simpl.
        rewrite Z.eqb_refl. simpl. lia.
      * exists k. split; [exact Hk | exact Hw'].
Qed.

(** Three arguments for a statement with one parameter: the second setter
    is refused, the third is never called, the handle is finalized. *)
Lemma prepare_args_failure_finalizes_witness :
  let w := World (strict [] []) [] in
  let sql := "SELECT ?;" in
  let args := [Statement.of_int32 1; Statement.of_int32 2;
               Statement.of_int32 3] in
  let w' := World (engine w)
              [sqlite3_prepare_v2 toy_db sql 9;
               sqlite3_bind_int toy_stmt 1 1;
               sqlite3_bind_int toy_stmt 2 2;
               sqlite3_finalize toy_stmt] in
  DB.prepare_args (DB.mk toy_db) sql args w
    = Throws (mkError SQLITE_RANGE "bind failed") w'
  /\ finalized toy_stmt w' = 1%nat.
Proof.
  intros w sql args w'.
  assert (Hthrow : DB.prepare_args (DB.mk toy_db) sql args w
                   = Throws (mkError SQLITE_RANGE "bind failed") w')
    by reflexivity.
  destruct (prepare_args_failure_finalizes (DB.mk toy_db) sql args w _ _
              ltac:(vm_compute; reflexivity) Hthrow)
    as (_ & _ & Hprepared).
  destruct Hprepared as [Hfinalized _]; [reflexivity | reflexivity |].
  split; [exact Hthrow | exact Hfinalized].
Defined.

(** ** Transactions *)

(** The private [exec], call by call. *)
Lemma exec_shape (db : ptr) (sql : string) (w : world) :
  let prep := sqlite3_prepare_v2 db sql (-1) in
  let h := snd (answer w prep) in
  let w1 := after w prep in
  let sres := answer w1 (sqlite3_step h) in
  Transaction.exec db sql w =
    if fst (answer w prep) =? SQLITE_OK
    then Returns (if sres =? SQLITE_DONE then SQLITE_OK else sres)
           (after (after w1 (sqlite3_step h)) (sqlite3_finalize h))
    else Returns (fst (answer w prep)) w1.
Proof.
  cbv zeta. unfold Transaction.exec. rewrite bind_sqlite3.
  destruct (answer w (sqlite3_prepare_v2 db sql (-1))) as [pres h].
  simpl fst. simpl snd.
  destruct (pres =? SQLITE_OK); cbn [negb]; cbv beta iota; [| reflexivity].
  rewrite bind_sqlite3. unfold bind, sqlite3, ret.
  destruct (answer _ (sqlite3_step h) =? SQLITE_DONE); reflexivity.
Qed.

(** [exec] hands only its own text to the engine. *)
Lemma exec_issued (db : ptr) (sql sql' : string) (w w' : world) (res : Z) :
  Transaction.exec db sql w = Returns res w' ->
  issued sql' w' =
    (issued sql' w + (if String.eqb sql sql' then 1 else 0))%nat.
Proof.
  rewrite exec_shape. cbv zeta.
  destruct (fst (answer w (sqlite3_prepare_v2 db sql (-1))) =? SQLITE_OK);
    intros H; injection H as _ <-; rewrite !issued_after; simpl;
    destruct (String.eqb sql sql'); lia.
Qed.

(** X8.  The private [exec] of [Transaction] never throws.  When the engine
    refuses to prepare the text, [exec] returns that result and neither
    steps nor finalizes anything.  When the text is prepared, the handle is
    stepped exactly once and then finalized exactly once, whatever the step
    answered; the result is [SQLITE_OK] exactly when the step answered
    [SQLITE_DONE] (or [SQLITE_OK]), so a statement that produces a row is
    reported as a failure with code [SQLITE_ROW]. *)
Theorem exec_finalizes_what_it_prepares :
  forall (db : ptr) (sql : string) (w : world),
    let prep := sqlite3_prepare_v2 db sql (-1) in
    let h := snd (answer w prep) in
    let w1 := after w prep in
    let sres := answer w1 (sqlite3_step h) in
    exists (res : Z) (w' : world),
      Transaction.exec db sql w = Returns res w'
      /\ (fst (answer w prep) <> SQLITE_OK ->
          res = fst (answer w prep) /\ w' = w1)
      /\ (fst (answer w prep) = SQLITE_OK ->
          w' = after (after w1 (sqlite3_step h)) (sqlite3_finalize h)
          /\ finalized h w' = S (finalized h w)
          /\ steps_of h (log w') = S (steps_of h (log w))
          /\ (res = SQLITE_OK <-> sres = SQLITE_DONE \/ sres = SQLITE_OK)
          /\ (sres = SQLITE_ROW -> res = SQLITE_ROW)).
Proof.
  intros db sql w prep h w1 sres.
  pose proof (exec_shape db sql w) as H. cbv zeta in H.
  fold prep in H. fold h in H. fold w1 in H. fold sres in H.
  destruct (fst (answer w prep) =? SQLITE_OK) eqn:Hp.
  - apply Z.eqb_eq in Hp. eexists. eexists. split; [exact H |].
    split; [intros Hbad; contradiction |].
    intros _. split; [reflexivity |].
    split; [| split; [| split]].
    + unfold w1. rewrite !finalized_after. simpl. rewrite Z.eqb_refl. lia.
    + unfold w1. rewrite !steps_of_after. simpl. rewrite Z.eqb_refl. lia.
    + destruct (sres =? SQLITE_DONE) eqn:Hd.
      * apply Z.eqb_eq in Hd. split; [intros _; now left | reflexivity].
      * apply Z.eqb_neq in Hd. split; [intros ->; now right |].
        intros [Hdone | Hok]; [contradiction | exact Hok].
    + intros ->. reflexivity.
  - apply Z.eqb_neq in Hp. eexists. eexists. split; [exact H |].
    split; [intros _; split; reflexivity |].
    intros Hok. contradiction.
Qed.

(** X9.  Opening a transaction through [DB::transaction()] issues BEGIN
    exactly once and nothing else.  If the engine refuses it, the call
    throws an [Error] carrying the result and no transaction object exists,
    so no COMMIT will follow.  If it returns, the object is active on the
    handle of the [DB]; when it then goes out of scope and the engine
    answers the COMMIT with anything but busy, exactly one COMMIT and no
    ROLLBACK has been issued and the destructor returns. *)
Theorem transaction_scope :
  forall (db : DB.t) (w : world),
  exists (res : Z) (w1 : world),
    Transaction.exec (DB.db_ db) "BEGIN TRANSACTION;" w = Returns res w1
    /\ issued "BEGIN TRANSACTION;" w1 = S (issued "BEGIN TRANSACTION;" w)
    /\ issued "COMMIT;" w1 = issued "COMMIT;" w
    /\ issued "ROLLBACK;" w1 = issued "ROLLBACK;" w
    /\ DB.transaction db w =
         (if res =? SQLITE_OK
          then Returns (Transaction.mk (DB.db_ db) false) w1
          else Throws (mkError res "can't begin transaction") w1)
    /\ (forall (t : Transaction.t) (fuel : nat) (res2 : Z) (w2 : world),
          DB.transaction db w = Returns t w1 ->
          Transaction.exec (Transaction.db_ t) "COMMIT;" w1 = Returns res2 w2 ->
          res2 <> SQLITE_BUSY ->
          active t = negb (is_null (DB.db_ db))
          /\ throws (Transaction.destructor (S fuel) (t, w1)) = false
          /\ final_state (Transaction.destructor (S fuel) (t, w1))
             = Some ((if res2 =? SQLITE_OK
                      then Transaction.mk (DB.db_ db) true else t), w2)
          /\ issued "BEGIN TRANSACTION;" w2 = S (issued "BEGIN TRANSACTION;" w)
          /\ issued "COMMIT;" w2 = S (issued "COMMIT;" w)
          /\ issued "ROLLBACK;" w2 = issued "ROLLBACK;" w).
Proof.
  intros db w.
  destruct (exec_returns (DB.db_ db) "BEGIN TRANSACTION;" w)
    as (res & w1 & Hexec & Hbegin).
  exists res, w1.
  pose proof (exec_issued _ _ "COMMIT;" _ _ _ Hexec) as Hc.
  pose proof (exec_issued _ _ "ROLLBACK;" _ _ _ Hexec) as Hr.
  simpl in Hc, Hr.
  assert (Hctor : DB.transaction db w =
                    if res =? SQLITE_OK
                    then Returns (Transaction.mk (DB.db_ db) false) w1
                    else Throws (mkError res "can't begin transaction") w1).
  { unfold DB.transaction, Transaction.constructor, bind. rewrite Hexec.
    destruct (res =? SQLITE_OK); reflexivity. }
  split; [exact Hexec | split; [exact Hbegin | split; [lia | split; [lia |]]]].
  split; [exact Hctor |].
  intros t fuel res2 w2 Ht Hcommit Hbusy.
  rewrite Hctor in Ht.
  destruct (res =? SQLITE_OK); [| discriminate].
  injection Ht as <-. simpl Transaction.db_ in *.
  pose proof (exec_issued _ _ "BEGIN TRANSACTION;" _ _ _ Hcommit) as Hb2.
  pose proof (exec_issued _ _ "COMMIT;" _ _ _ Hcommit) as Hc2.
  pose proof (exec_issued _ _ "ROLLBACK;" _ _ _ Hcommit) as Hr2.
  simpl in Hb2, Hc2, Hr2.
  assert (Hd : Transaction.destructor (S fuel)
                 (Transaction.mk (DB.db_ db) false, w1)
               = Returns tt
                   ((if res2 =? SQLITE_OK
                     then Transaction.mk (DB.db_ db) true
                     else Transaction.mk (DB.db_ db) false), w2)).
  { unfold Transaction.destructor, bind.
    rewrite (try_commit_turn fuel false
               (Transaction.mk (DB.db_ db) false) w1 w2 res2 Hcommit).
    simpl Transaction.db_.
    destruct (res2 =? SQLITE_OK); [reflexivity |].
    apply Z.eqb_neq in Hbusy. rewrite Hbusy. reflexivity. }
  rewrite Hd. simpl.
  split; [unfold active; simpl; now rewrite andb_true_r |].
  split; [reflexivity |].
  split; [reflexivity |].
  split; [lia | split; lia].
Qed.

(** In a loop that gave up, every answer so far was busy. *)
Lemma try_commit_out_of_fuel (fuel : nat) :
  forall (exc : bool) (t : Transaction.t) (w : world),
    Transaction.try_commit fuel exc (t, w) = OutOfFuel ->
    exists w' : world, after_busy (Transaction.db_ t) fuel w = Some w'.
Proof.
  induction fuel as [| fuel IH]; intros exc t w H.
  - exists w. reflexivity.
  - destruct (exec_returns (Transaction.db_ t) "COMMIT;" w)
      as (res & w1 & Hexec & _).
    rewrite (try_commit_turn _ _ _ _ _ _ Hexec) in H.
    simpl. rewrite Hexec.
    destruct (res =? SQLITE_OK); [discriminate |].
    destruct (res =? SQLITE_BUSY).
    + now apply IH in H.
    + destruct exc; discriminate.
Qed.

(** X10.  The commit loop can only go on for one reason: within a bound of
    [fuel] rounds, [commit()] has not ended exactly when each of the first
    [fuel] COMMITs was reported busy; and the same holds for the
    destructor.  Any other answer ends both within the round it is
    given. *)
Theorem commit_goes_on_only_while_busy :
  forall (fuel : nat) (t : Transaction.t) (w : world),
    (Transaction.commit fuel (t, w) = OutOfFuel
     <-> exists w' : world, after_busy (Transaction.db_ t) fuel w = Some w')
    /\ (Transaction.destructor fuel (t, w) = OutOfFuel
        <-> exists w' : world, after_busy (Transaction.db_ t) fuel w = Some w').
Proof.
  intros fuel t w.
  assert (Hloop : forall exc,
            (Transaction.try_commit fuel exc;;; ret tt) (t, w) = OutOfFuel
            <-> exists w', after_busy (Transaction.db_ t) fuel w = Some w').
  { intros exc. unfold bind. split.
    - intros H. apply (try_commit_out_of_fuel fuel exc).
      destruct (Transaction.try_commit fuel exc (t, w));
        solve [discriminate | reflexivity].
    - intros [w' Hbusy].
      destruct (try_commit_busy_rounds fuel 0 exc t w w' Hbusy) as [Hspin _].
      rewrite Nat.add_0_r in Hspin. now rewrite Hspin. }
  split; apply Hloop.
Qed.

(** A transaction of the unit test's shape: BEGIN is accepted, nothing is
    resolved by hand, the COMMIT of the destructor is accepted. *)
Lemma transaction_scope_witness :
  let db := DB.mk toy_db in
  let w := fresh [] [SQLITE_DONE; SQLITE_DONE] in
  let begin := [sqlite3_prepare_v2 toy_db "BEGIN TRANSACTION;" (-1);
                sqlite3_step toy_stmt; sqlite3_finalize toy_stmt] in
  let commit := [sqlite3_prepare_v2 toy_db "COMMIT;" (-1);
                 sqlite3_step toy_stmt; sqlite3_finalize toy_stmt] in
  final_state (Transaction.destructor 1
                 (Transaction.mk toy_db false, World (engine w) begin))
    = Some (Transaction.mk toy_db true,
            World (engine w) (begin ++ commit)%list)
  /\ issued "COMMIT;" (World (engine w) (begin ++ commit)%list) = 1%nat.
Proof.
  intros db w begin commit.
  destruct (transaction_scope db w) as (res & w1 & Hexec & _ & _ & _ & _ & Hscope).
  assert (E : Returns SQLITE_OK (World (engine w) begin) = Returns res w1)
    by exact Hexec.
  injection E as <- <-.
  destruct (Hscope (Transaction.mk toy_db false) 0%nat SQLITE_OK
              (World (engine w) (begin ++ commit)%list))
    as (_ & _ & Hfinal & _ & Hcommits & _).
  - reflexivity.
  - reflexivity.
  - discriminate.
  - split; [exact Hfinal | exact Hcommits].
Defined.

(** How the commit loop can end. *)
Lemma try_commit_outcomes (fuel : nat) :
  forall (exc : bool) (t : Transaction.t) (w : world),
    match Transaction.try_commit fuel exc (t, w) with
    | Returns b (t', _) =>
        (b = true /\ t' = Transaction.mk (Transaction.db_ t) true)
        \/ (b = false /\ exc = false /\ t' = t)
    | Throws e (t', _) =>
        exc = true /\ t' = t
        /\ code e <> SQLITE_OK /\ code e <> SQLITE_BUSY
        /\ what e = "commit failed"
    | Undefined => False
    | OutOfFuel => True
    end.
Proof.
  induction fuel as [| fuel IH]; intros exc t w; [exact I |].
  destruct (exec_returns (Transaction.db_ t) "COMMIT;" w)
    as (res & w1 & Hexec & _).
  rewrite (try_commit_turn _ _ _ _ _ _ Hexec).
  destruct (res =? SQLITE_OK) eqn:Hok; [left; split; reflexivity |].
  destruct (res =? SQLITE_BUSY) eqn:Hbusy; [apply IH |].
  apply Z.eqb_neq in Hok, Hbusy.
  destruct exc.
  - repeat split; assumption.
  - right. repeat split.
Qed.

(** A move assignment onto an active destination, in terms of the commit
    it starts with. *)
Lemma move_assign_active (fuel : nat) (dst src : Transaction.t) (w : world) :
  active dst = true ->
  Transaction.move_assign fuel ((dst, src), w) =
    match Transaction.commit fuel (dst, w) with
    | Returns _ (_, w') =>
        Returns tt
          ((Transaction.mk (Transaction.db_ src) (Transaction.done_ src),
            Transaction.mk nullptr (Transaction.done_ src)), w')
    | Throws e (dst', w') => Throws e ((dst', src), w')
    | Undefined => Undefined
    | OutOfFuel => OutOfFuel
    end.
Proof.
  intros Hactive. unfold active in Hactive.
  unfold Transaction.move_assign, Transaction.move_body.
  unfold bind at 1. unfold Transaction.on_destination at 1.
  unfold Transaction.this at 1. cbn [fst snd].
  rewrite Hactive. unfold bind at 1.
  unfold Transaction.on_destination. cbn [fst snd].
  destruct (Transaction.commit fuel (dst, w)) as [[] [d w'] | e [d w'] | |];
    reflexivity.
Qed.

(** X11.  A move assignment onto an active transaction first commits that
    transaction with an explicit [commit()].  If the commit returns, the
    destination then takes the handle and the flag of the source, and the
    source loses its handle; at least one COMMIT was issued.  If the commit
    throws, the [Error] leaves the assignment: nothing is transferred, both
    objects are as they were, the source still holds its handle. *)
Theorem move_assign_commits_destination_first :
  forall (fuel : nat) (dst src : Transaction.t) (w : world),
    active dst = true ->
    (forall (dst' : Transaction.t) (w' : world),
       Transaction.commit fuel (dst, w) = Returns tt (dst', w') ->
       Transaction.move_assign fuel ((dst, src), w)
         = Returns tt
             ((Transaction.mk (Transaction.db_ src) (Transaction.done_ src),
               Transaction.mk nullptr (Transaction.done_ src)), w')
       /\ (issued "COMMIT;" w < issued "COMMIT;" w')%nat)
    /\ (forall (e : Error) (dst' : Transaction.t) (w' : world),
       Transaction.commit fuel (dst, w) = Throws e (dst', w') ->
       dst' = dst
       /\ Transaction.move_assign fuel ((dst, src), w)
          = Throws e ((dst, src), w')).
Proof.
  intros fuel dst src w Hactive.
  rewrite (move_assign_active fuel dst src w Hactive).
  split.
  - intros dst' w' Hcommit. rewrite Hcommit. split; [reflexivity |].
    apply (try_commit_issues fuel true dst w (dst', w')).
    unfold Transaction.commit, bind in Hcommit.
    destruct (Transaction.try_commit fuel true (dst, w)) as [b s | | |];
      try discriminate.
    injection Hcommit as ->. reflexivity.
  - intros e dst' w' Hcommit. rewrite Hcommit.
    assert (Hsame : dst' = dst).
    { unfold Transaction.commit, bind in Hcommit.
      pose proof (try_commit_outcomes fuel true dst w) as Hout.
      destruct (Transaction.try_commit fuel true (dst, w))
        as [b s | e' [t' w''] | |]; try discriminate.
      injection Hcommit as _ -> _. apply Hout. }
    split; [exact Hsame | now rewrite Hsame].
Qed.

(** An active destination whose COMMIT is accepted, and one whose COMMIT
    fails with [SQLITE_ERROR]. *)
Lemma move_assign_commits_destination_first_witness :
  let dst := Transaction.mk toy_db false in
  let src := Transaction.mk 2 false in
  let round := [sqlite3_prepare_v2 toy_db "COMMIT;" (-1);
                sqlite3_step toy_stmt; sqlite3_finalize toy_stmt] in
  Transaction.move_assign 1 ((dst, src), fresh [] [SQLITE_DONE])
    = Returns tt
        ((Transaction.mk 2 false, Transaction.mk nullptr false),
         World (toy [] [SQLITE_DONE]) round)
  /\ Transaction.move_assign 1 ((dst, src), fresh [] [SQLITE_ERROR])
    = Throws (mkError SQLITE_ERROR "commit failed")
        ((dst, src), World (toy [] [SQLITE_ERROR]) round).
Proof.
  intros dst src round. split.
  - destruct (move_assign_commits_destination_first 1 dst src
                (fresh [] [SQLITE_DONE]) eq_refl) as [Hreturns _].
    destruct (Hreturns (Transaction.mk toy_db true)
                (World (toy [] [SQLITE_DONE]) round) eq_refl) as [Heq _].
    exact Heq.
  - destruct (move_assign_commits_destination_first 1 dst src
                (fresh [] [SQLITE_ERROR]) eq_refl) as [_ Hthrows].
    destruct (Hthrows (mkError SQLITE_ERROR "commit failed") dst
                (World (toy [] [SQLITE_ERROR]) round) eq_refl) as [_ Heq].
    exact Heq.
Defined.

(** X12.  Whatever [commit()], [rollback()] or the destructor do to a
    transaction, and whether they return or throw, the object keeps its
    handle, and if it was done before it is done afterwards: none of the
    three changes [db_] or clears [done_].  A move assignment is another
    matter: onto a destination that is done it calls nothing and gives the
    destination the handle and the flag of the source, so there a set
    [done_] is replaced by the source's, set or not. *)
Theorem transaction_keeps_handle_and_done :
  forall (fuel : nat) (t : Transaction.t) (w : world) (s' : Transaction.state),
    (final_state (Transaction.commit fuel (t, w)) = Some s'
     \/ final_state (Transaction.destructor fuel (t, w)) = Some s'
     \/ final_state (Transaction.rollback (t, w)) = Some s' ->
     Transaction.db_ (fst s') = Transaction.db_ t
     /\ (Transaction.done_ t = true -> Transaction.done_ (fst s') = true))
    /\ (forall src : Transaction.t,
          Transaction.done_ t = true ->
          Transaction.move_assign fuel ((t, src), w)
          = Returns tt
              ((Transaction.mk (Transaction.db_ src) (Transaction.done_ src),
                Transaction.mk nullptr (Transaction.done_ src)), w)).
Proof.
  intros fuel t w s'. split.
  - intros H.
    assert (Hloop : forall exc,
              final_state ((Transaction.try_commit fuel exc;;; ret tt) (t, w))
                = Some s' ->
              Transaction.db_ (fst s') = Transaction.db_ t
              /\ (Transaction.done_ t = true ->
                  Transaction.done_ (fst s') = true)).
    { intros exc. unfold bind.
      pose proof (try_commit_outcomes fuel exc t w) as Hout.
      destruct (Transaction.try_commit fuel exc (t, w))
        as [b [t' w'] | e [t' w'] | |]; try discriminate.
      - intros E. injection E as <-. simpl.
        destruct Hout as [(_ & ->) | (_ & _ & ->)]; split; auto.
      - intros E. injection E as <-. simpl.
        destruct Hout as (_ & -> & _). split; auto. }
    destruct H as [H | [H | H]].
    + exact (Hloop true H).
    + exact (Hloop false H).
    + unfold Transaction.rollback, bind, Transaction.this, Transaction.lift
        in H.
      simpl in H.
      destruct (exec_returns (Transaction.db_ t) "ROLLBACK;" w)
        as (res & w' & Hexec & _).
      rewrite Hexec in H.
      destruct (negb (res =? SQLITE_OK)); injection H as <-; simpl;
        split; auto.
  - intros src Hdone. apply move_assign_fields.
    rewrite Hdone. apply andb_false_r.
Qed.

(** A done transaction whose ROLLBACK is refused keeps handle and flag; a
    move assignment from a transaction that is not done clears the flag. *)
Lemma transaction_keeps_handle_and_done_witness :
  let t := Transaction.mk toy_db true in
  let w := fresh [] [SQLITE_ERROR] in
  let s' := (t, World (engine w)
                  [sqlite3_prepare_v2 toy_db "ROLLBACK;" (-1);
                   sqlite3_step toy_stmt; sqlite3_finalize toy_stmt]) in
  final_state (Transaction.rollback (t, w)) = Some s'
  /\ Transaction.db_ (fst s') = toy_db
  /\ Transaction.done_ (fst s') = true
  /\ Transaction.move_assign 0 ((t, Transaction.mk 2 false), w)
     = Returns tt ((Transaction.mk 2 false, Transaction.mk nullptr false), w).
Proof.
  intros t w s'.
  assert (H : final_state (Transaction.rollback (t, w)) = Some s')
    by reflexivity.
  destruct (transaction_keeps_handle_and_done 0 t w s') as [Hkeep Hmove].
  destruct Hkeep as [Hdb Hdone].
  - right. right. exact H.
  - split; [exact H | split; [exact Hdb | split; [exact (Hdone eq_refl) |]]].
    exact (Hmove (Transaction.mk 2 false) eq_refl).
Defined.

(** * The test runner *)

(** ** The registry *)

Lemma compare_refl (s : string) : String.compare s s = Eq.
Proof.
  pose proof (String.compare_antisym s s) as H.
  destruct (String.compare s s); simpl in H; congruence.
Qed.

(** X13.  Registering a test makes it known under its name with the flags
    and the test given, replacing what was registered under that name
    before; every other name keeps what it had. *)
Theorem add_then_find :
  forall (tests : unittest.registry) (name : string) (flags : Z)
         (test : unittest.verdict),
    unittest.find (unittest.add tests name flags test) name
      = Some (flags, test)
    /\ unittest.count (unittest.add tests name flags test) name = 1%nat
    /\ (forall other : string,
          other <> name ->
          unittest.find (unittest.add tests name flags test) other
            = unittest.find tests other
          /\ unittest.count (unittest.add tests name flags test) other
            = unittest.count tests other).
Proof.
  intros tests name flags test.
  induction tests as [| [k v] rest IH].
  - simpl. rewrite String.eqb_refl. repeat split;
      apply String.eqb_neq in H; rewrite String.eqb_sym, H; reflexivity.
  - simpl. destruct (String.compare name k) eqn:Hcmp.
    + apply String.compare_eq_iff in Hcmp. subst k.
      simpl. rewrite String.eqb_refl. repeat split;
        apply String.eqb_neq in H; rewrite String.eqb_sym, H; reflexivity.
    + simpl. rewrite String.eqb_refl. repeat split;
        apply String.eqb_neq in H; rewrite (String.eqb_sym name), H;
        reflexivity.
    + assert (Hk : String.eqb k name = false).
      { apply String.eqb_neq. intros ->. rewrite compare_refl in Hcmp.
        discriminate. }
      destruct IH as (Hfind & Hcount & Hother).
      simpl. rewrite Hk. split; [exact Hfind | split; [exact Hcount |]].
      intros other Hneq. destruct (Hother other Hneq) as [Hf Hc].
      destruct (String.eqb k other); [split; reflexivity |].
      split; [exact Hf | exact Hc].
Qed.

(** ** The argument loop *)

Lemma arg_current (a : unittest.Args) (short_name long_name : string) :
  unittest.operator_bool a = true ->
  unittest.arg a short_name long_name =
    if spells (unittest.current a) short_name long_name
    then (true, unittest.advance a) else (false, a).
Proof.
  unfold unittest.operator_bool, unittest.arg, spells. intros ->. reflexivity.
Qed.

(** One round of the loop, by the argument it looks at. *)
Lemma parse_round (fuel : nat) (tests : unittest.registry) (prog : string)
    (a : unittest.Args) (l : unittest.locals) :
  unittest.operator_bool a = true ->
  let c := unittest.current a in
  let next := unittest.parse fuel tests prog (unittest.advance a) in
  unittest.parse (S fuel) tests prog a l =
    if spells c "-h" "--help" then
      inl (unittest.exits 0
             (unittest.printed_ l ++ unittest.usage prog)%list [])
    else if spells c "-a" "--all" then
      next (unittest.mkLocals (unittest.tests_to_run l) true
              (unittest.benchmarks l) (unittest.verbose_ l)
              (unittest.printed_ l))
    else if spells c "-b" "--benchmarks" then
      next (unittest.mkLocals (unittest.tests_to_run l) (unittest.all l)
              true (unittest.verbose_ l) (unittest.printed_ l))
    else if spells c "-l" "--list" then
      next (unittest.mkLocals (unittest.tests_to_run l) (unittest.all l)
              (unittest.benchmarks l) (unittest.verbose_ l)
              (unittest.printed_ l ++ unittest.listing tests)%list)
    else if spells c "-v" "--verbose" then
      next (unittest.mkLocals (unittest.tests_to_run l) (unittest.all l)
              (unittest.benchmarks l) true (unittest.printed_ l))
    else if (unittest.count tests c =? 0)%nat then
      inl (unittest.exits 1
             (unittest.printed_ l
              ++ [unittest.cerr ("Error: unknown test name `" ++ c ++ "'")])%list
             [])
    else
      next (unittest.mkLocals (unittest.tests_to_run l ++ [c])%list
              (unittest.all l) (unittest.benchmarks l) (unittest.verbose_ l)
              (unittest.printed_ l)).
Proof.
  intros Hmore c next.
  cbn [unittest.parse]. rewrite Hmore.
  rewrite (arg_current a "-h" "--help" Hmore). fold c.
  destruct (spells c "-h" "--help"); [reflexivity |].
  rewrite (arg_current a "-a" "--all" Hmore). fold c.
  destruct (spells c "-a" "--all"); [reflexivity |].
  rewrite (arg_current a "-b" "--benchmarks" Hmore). fold c.
  destruct (spells c "-b" "--benchmarks"); [reflexivity |].
  rewrite (arg_current a "-l" "--list" Hmore). fold c.
  destruct (spells c "-l" "--list"); [reflexivity |].
  rewrite (arg_current a "-v" "--verbose" Hmore). fold c.
  destruct (spells c "-v" "--verbose"); [reflexivity |].
  unfold unittest.arg_value.
  unfold unittest.operator_bool in Hmore. rewrite Hmore. fold c.
  destruct (unittest.count tests c =? 0)%nat; reflexivity.
Qed.

(** The loop leaves [run] only by the help text or by an unknown name. *)
Lemma parse_endings (fuel : nat) (tests : unittest.registry) (prog : string) :
  forall (a : unittest.Args) (l : unittest.locals) (e : unittest.ending),
    unittest.parse fuel tests prog a l = inl e ->
    e = unittest.out_of_fuel
    \/ (exists p, e = unittest.exits 0 p [])
    \/ (exists p t,
          e = unittest.exits 1
                (p ++ [unittest.cerr ("Error: unknown test name `" ++ t ++ "'")])%list
                []
          /\ unittest.count tests t = 0%nat).
Proof.
  induction fuel as [| fuel IH]; intros a l e H.
  - simpl in H. destruct (unittest.operator_bool a); [| discriminate].
    injection H as <-. now left.
  - destruct (unittest.operator_bool a) eqn:Hmore.
    + rewrite (parse_round fuel tests prog a l Hmore) in H. cbv zeta in H.
      destruct (spells _ "-h" "--help").
      { injection H as <-. right. left. eexists. reflexivity. }
      destruct (spells _ "-a" "--all"); [now apply IH in H |].
      destruct (spells _ "-b" "--benchmarks"); [now apply IH in H |].
      destruct (spells _ "-l" "--list"); [now apply IH in H |].
      destruct (spells _ "-v" "--verbose"); [now apply IH in H |].
      destruct (unittest.count tests (unittest.current a) =? 0)%nat eqn:Hc;
        [| now apply IH in H].
      injection H as <-. right. right.
      eexists. eexists. split; [reflexivity |].
      now apply Nat.eqb_eq in Hc.
    + simpl in H. rewrite Hmore in H. discriminate.
Qed.

(** Every round moves to the next argument, so the arguments left bound the
    rounds. *)
Lemma parse_enough_fuel (fuel : nat) (tests : unittest.registry)
    (prog : string) :
  forall (a : unittest.Args) (l : unittest.locals),
    (Z.to_nat (unittest.argc_ a - unittest.index_ a) <= fuel)%nat ->
    unittest.parse fuel tests prog a l <> inl unittest.out_of_fuel.
Proof.
  induction fuel as [| fuel IH]; intros a l Hfuel.
  - simpl. destruct (unittest.operator_bool a) eqn:Hmore; [| discriminate].
    unfold unittest.operator_bool in Hmore. apply Z.ltb_lt in Hmore. lia.
  - destruct (unittest.operator_bool a) eqn:Hmore.
    + rewrite (parse_round fuel tests prog a l Hmore). cbv zeta.
      unfold unittest.operator_bool in Hmore. apply Z.ltb_lt in Hmore.
      assert (Hnext : (Z.to_nat (unittest.argc_ (unittest.advance a)
                                 - unittest.index_ (unittest.advance a))
                       <= fuel)%nat) by (simpl; lia).
      destruct (spells _ "-h" "--help"); [discriminate |].
      destruct (spells _ "-a" "--all"); [now apply IH |].
      destruct (spells _ "-b" "--benchmarks"); [now apply IH |].
      destruct (spells _ "-l" "--list"); [now apply IH |].
      destruct (spells _ "-v" "--verbose"); [now apply IH |].
      destruct (unittest.count tests (unittest.current a) =? 0)%nat;
        [discriminate | now apply IH].
    + simpl. rewrite Hmore. discriminate.
Qed.

(** ** Running the tests *)

Lemma count_find (tests : unittest.registry) (name : string) :
  unittest.count tests name = 0%nat <-> unittest.find tests name = None.
Proof.
  induction tests as [| [k v] rest IH]; simpl.
  - split; reflexivity.
  - destruct (String.eqb k name); [split; discriminate | exact IH].
Qed.

(** When [run] returns from the loop over the tests, it returns 0. *)
Lemma execute_exits_zero (tests : unittest.registry) (seconds : nat -> string)
    (names : list string) :
  forall (printed : list unittest.line) (ran : list string)
         (code : Z) (printed' : list unittest.line) (ran' : list string),
    unittest.execute tests seconds names printed ran
      = unittest.exits code printed' ran' ->
    code = 0.
Proof.
  induction names as [| name rest IH]; intros printed ran code printed' ran' H.
  - simpl in H. now injection H as <- _ _.
  - simpl in H.
    destruct (unittest.find tests name) as [[flags test] |]; [| discriminate].
    destruct test; [now apply IH in H | now apply IH in H | discriminate].
Qed.

Lemma execute_not_out_of_fuel (tests : unittest.registry)
    (seconds : nat -> string) (names : list string) :
  forall (printed : list unittest.line) (ran : list string),
    unittest.execute tests seconds names printed ran <> unittest.out_of_fuel.
Proof.
  induction names as [| name rest IH]; intros printed ran; simpl.
  - discriminate.
  - destruct (unittest.find tests name) as [[flags test] |]; [| discriminate].
    destruct test; [apply IH | apply IH | discriminate].
Qed.


(** Registered tests that keep foreign exceptions in are all run, in the
    order of the list. *)
Lemma execute_contained (tests : unittest.registry) (seconds : nat -> string)
    (names : list string) :
  contained tests ->
  (forall n : string, List.In n names -> unittest.count tests n <> 0%nat) ->
  forall (printed : list unittest.line) (ran : list string),
  exists printed' : list unittest.line,
    unittest.execute tests seconds names printed ran
    = unittest.exits 0 printed' (ran ++ names)%list.
Proof.
  intros Hcontained.
  induction names as [| name rest IH]; intros Hknown printed ran;
    cbn [unittest.execute].
  - exists printed. now rewrite List.app_nil_r.
  - assert (Hname : unittest.count tests name <> 0%nat)
      by (apply Hknown; now left).
    assert (Hrest : forall n, List.In n rest -> unittest.count tests n <> 0%nat)
      by (intros n Hn; apply Hknown; now right).
    destruct (unittest.find tests name) as [[flags test] |] eqn:Hfind.
    + destruct test as [| ln msg |].
      * destruct (IH Hrest
                    ((printed ++ [unittest.header flags name]) ++
                     [unittest.cout ("[OK " ++ name ++ " in "
                                     ++ seconds (List.length ran)
                                     ++ " seconds]")])%list
                    (ran ++ [name])%list) as [p Hp].
        exists p. cbv zeta. rewrite Hp. now rewrite <- List.app_assoc.
      * destruct (IH Hrest
                    ((printed ++ [unittest.header flags name]) ++
                     [unittest.cerr ("[FAILED " ++ name ++ ": " ++ msg
                                     ++ " at line "
                                     ++ unittest.decimal_int ln ++ "]")])%list
                    (ran ++ [name])%list) as [p Hp].
        exists p. cbv zeta. rewrite Hp. now rewrite <- List.app_assoc.
      * exfalso. exact (Hcontained name flags Hfind).
    + apply count_find in Hfind. contradiction.
Qed.

(** X14.  When [run] returns, it returns 0 or 1.  It returns 1 only because
    a name on the command line is not registered; it has then printed the
    complaint about that name last and has run no test at all, not even
    tests named before it.  In every other case it returns 0, whatever the
    tests did: a failed test is reported on [std::cerr] but does not change
    the status. *)
Theorem run_exit_status :
  forall (fuel : nat) (tests : unittest.registry) (seconds : nat -> string)
         (argc : Z) (argv : list string)
         (code : Z) (printed : list unittest.line) (ran : list string),
    unittest.run fuel tests seconds argc argv
      = unittest.exits code printed ran ->
    code = 0
    \/ (code = 1 /\ ran = []
        /\ exists (p : list unittest.line) (t : string),
             printed
             = (p ++ [unittest.cerr
                        ("Error: unknown test name `" ++ t ++ "'")])%list
             /\ unittest.count tests t = 0%nat).
Proof.
  intros fuel tests seconds argc argv code printed ran H.
  unfold unittest.run in H.
  destruct (unittest.parse fuel tests (List.nth 0 argv "")
              (unittest.Args_ argc argv)
              (unittest.mkLocals [] false false false [])) as [e | l] eqn:Hp.
  - subst e. apply parse_endings in Hp.
    destruct Hp as [Hp | [(p & Hp) | (p & t & Hp & Hcount)]].
    + discriminate.
    + injection Hp as -> _ _. now left.
    + injection Hp as -> -> ->. right.
      repeat split. exists p, t. split; [reflexivity | exact Hcount].
  - left. now apply execute_exits_zero in H.
Qed.

(** A registered test that fails: the failure is printed, the status is 0.
    The same command line with an unknown name after it: status 1, and the
    registered test was not run. *)
Lemma run_exit_status_witness :
  let tests := unittest.add [] "sqlitexx" 0
                 (unittest.throws_error 17 "n == 100") in
  let seconds := fun _ : nat => "0" in
  unittest.run 2 tests seconds 2 ["unittest"; "sqlitexx"]
    = unittest.exits 0
        [unittest.cout "[SMALL TEST sqlitexx]";
         unittest.cerr "[FAILED sqlitexx: n == 100 at line 17]"]
        ["sqlitexx"]
  /\ unittest.run 3 tests seconds 3 ["unittest"; "sqlitexx"; "nosuch"]
    = unittest.exits 1
        [unittest.cerr "Error: unknown test name `nosuch'"] [].
Proof.
  intros tests seconds.
  assert (H0 : unittest.run 2 tests seconds 2 ["unittest"; "sqlitexx"]
               = unittest.exits 0
                   [unittest.cout "[SMALL TEST sqlitexx]";
                    unittest.cerr "[FAILED sqlitexx: n == 100 at line 17]"]
                   ["sqlitexx"]) by reflexivity.
  assert (H1 : unittest.run 3 tests seconds 3
                 ["unittest"; "sqlitexx"; "nosuch"]
               = unittest.exits 1
                   [unittest.cerr "Error: unknown test name `nosuch'"] [])
    by reflexivity.
  destruct (run_exit_status _ _ _ _ _ _ _ _ H0) as [_ | (E & _)];
    [| discriminate E].
  destruct (run_exit_status _ _ _ _ _ _ _ _ H1) as [E | _];
    [discriminate E |].
  split; [exact H0 | exact H1].
Defined.

(** X15.  The argument loop of [run] looks at each argument after the
    program name at most once: a bound of [argc - 1] rounds is never
    reached, so [run] with the arguments it gets from [main] always gets to
    an end of its own. *)
Theorem run_ends_within_argc_rounds :
  forall (fuel : nat) (tests : unittest.registry) (seconds : nat -> string)
         (argv : list string),
    (List.length argv <= S fuel)%nat ->
    unittest.run fuel tests seconds (Z.of_nat (List.length argv)) argv
      <> unittest.out_of_fuel.
Proof.
  intros fuel tests seconds argv Hfuel.
  unfold unittest.run.
  pose proof (parse_enough_fuel fuel tests (List.nth 0 argv "")
                (unittest.Args_ (Z.of_nat (List.length argv)) argv)
                (unittest.mkLocals [] false false false [])) as Hparse.
  destruct (unittest.parse fuel tests (List.nth 0 argv "")
              (unittest.Args_ (Z.of_nat (List.length argv)) argv)
              (unittest.mkLocals [] false false false [])) as [e | l].
  - intros ->. apply Hparse; [| reflexivity]. simpl. lia.
  - apply execute_not_out_of_fuel.
Qed.

Lemma run_ends_within_argc_rounds_witness :
  unittest.run 3 [] (fun _ => "0") 4 ["unittest"; "-v"; "-a"; "-l"]
    <> unittest.out_of_fuel.
Proof.
  apply (run_ends_within_argc_rounds 3 [] (fun _ => "0")
           ["unittest"; "-v"; "-a"; "-l"]).
  simpl. lia.
Defined.


(** ** Which tests are run *)

Lemma select_in (tests : unittest.registry) (all benchmarks : bool)
    (name : string) :
  List.In name (unittest.select tests all benchmarks) <->
  exists (flags : Z) (v : unittest.verdict),
    List.In (name, (flags, v)) tests /\ chosen flags all benchmarks = true.
Proof.
  induction tests as [| [k [f v]] rest IH]; simpl.
  - split; [contradiction | intros (? & ? & [] & _)].
  - rewrite List.in_app_iff, IH. unfold chosen. split.
    + intros [Hhere | (flags & v' & Hin & Hch)].
      * exists f, v.
        destruct (unittest.has f unittest.LARGE_TEST);
          [destruct all | destruct (unittest.has f unittest.BENCHMARK);
                          [destruct benchmarks |]];
          simpl in Hhere; try contradiction;
          destruct Hhere as [<- | []]; split; auto.
      * exists flags, v'. split; [now right | exact Hch].
    + intros (flags & v' & [Heq | Hin] & Hch).
      * injection Heq as -> -> ->. left.
        destruct (unittest.has flags unittest.LARGE_TEST);
          [| destruct (unittest.has flags unittest.BENCHMARK)];
          rewrite ?Hch; simpl; auto.
      * right. exists flags, v'. split; assumption.
Qed.

Lemma in_count (tests : unittest.registry) (name : string) (fv : Z * unittest.verdict) :
  List.In (name, fv) tests -> unittest.count tests name <> 0%nat.
Proof.
  induction tests as [| [k v] rest IH]; simpl; [contradiction |].
  intros [Heq | Hin].
  - injection Heq as -> _. rewrite String.eqb_refl. discriminate.
  - destruct (String.eqb k name); [discriminate | now apply IH].
Qed.

(** X17.  Without test names on the command line [run] runs, in the order
    of the registry, exactly the registered tests that are neither large
    tests nor benchmarks; [-a] adds the large tests and [-b] adds the
    benchmarks that are not large.  A test carrying both flags counts as
    large: [-b] alone does not run it.  (Stated for tests that let no
    foreign exception out, so that the run gets through all of them.) *)
Theorem run_default_selection :
  forall (fuel : nat) (tests : unittest.registry) (seconds : nat -> string)
         (prog : string),
    contained tests ->
    ran_of (unittest.run fuel tests seconds 1 [prog])
      = Some (unittest.select tests false false)
    /\ ran_of (unittest.run (S fuel) tests seconds 2 [prog; "-a"])
      = Some (unittest.select tests true false)
    /\ ran_of (unittest.run (S fuel) tests seconds 2 [prog; "-b"])
      = Some (unittest.select tests false true)
    /\ (forall (all benchmarks : bool) (name : string),
          List.In name (unittest.select tests all benchmarks) <->
          exists (flags : Z) (v : unittest.verdict),
            List.In (name, (flags, v)) tests
            /\ chosen flags all benchmarks = true)
    /\ chosen (Z.lor unittest.LARGE_TEST unittest.BENCHMARK) false true = false.
Proof.
  intros fuel tests seconds prog Hcontained.
  assert (Hrun : forall all benchmarks,
            ran_of (unittest.execute tests seconds
                      (unittest.select tests all benchmarks) [] [])
            = Some (unittest.select tests all benchmarks)).
  { intros all benchmarks.
    destruct (execute_contained tests seconds
                (unittest.select tests all benchmarks) Hcontained) with
      (printed := @nil unittest.line) (ran := @nil string) as [p Hp].
    - intros n Hn. apply select_in in Hn.
      destruct Hn as (flags & v & Hin & _). now apply in_count in Hin.
    - rewrite Hp. reflexivity. }
  split; [| split; [| split; [| split]]].
  - destruct fuel; exact (Hrun false false).
  - destruct fuel; exact (Hrun true false).
  - destruct fuel; exact (Hrun false true).
  - intros all benchmarks name. apply select_in.
  - reflexivity.
Qed.

(** A small test, a large test and a benchmark, none of them throwing
    anything foreign. *)
Lemma run_default_selection_witness :
  let tests := unittest.add
                 (unittest.add
                    (unittest.add [] "small" 0 unittest.returns_normally)
                    "large" unittest.LARGE_TEST unittest.returns_normally)
                 "bench" unittest.BENCHMARK
                 (unittest.throws_error 3 "slow") in
  let seconds := fun _ : nat => "0" in
  ran_of (unittest.run 0 tests seconds 1 ["unittest"]) = Some ["small"]
  /\ ran_of (unittest.run 1 tests seconds 2 ["unittest"; "-a"])
     = Some ["large"; "small"]
  /\ ran_of (unittest.run 1 tests seconds 2 ["unittest"; "-b"])
     = Some ["bench"; "small"].
Proof.
  intros tests seconds.
  assert (Hcontained :
            contained
              [("bench", (unittest.BENCHMARK, unittest.throws_error 3 "slow"));
               ("large", (unittest.LARGE_TEST, unittest.returns_normally));
               ("small", (0, unittest.returns_normally))]).
  { intros name flags. cbn [unittest.find].
    destruct (String.eqb "bench" name); [discriminate |].
    destruct (String.eqb "large" name); [discriminate |].
    destruct (String.eqb "small" name); discriminate. }
  destruct (run_default_selection 0 tests seconds "unittest" Hcontained)
    as (Hplain & Hall & Hbench & _).
  split; [exact Hplain | split; [exact Hall | exact Hbench]].
Defined.

Lemma not_option (c : string) :
  is_option c = false ->
  spells c "-h" "--help" = false /\ spells c "-a" "--all" = false
  /\ spells c "-b" "--benchmarks" = false /\ spells c "-l" "--list" = false
  /\ spells c "-v" "--verbose" = false.
Proof.
  unfold is_option. intros H.
  do 4 (apply orb_false_iff in H; destruct H as [H ?]).
  repeat split; assumption.
Qed.

(** A tail of the command line that holds registered names only is moved to
    [tests_to_run] as it stands. *)
Lemma parse_names (tests : unittest.registry) (prog : string)
    (rest : list string) :
  forall (pre : list string) (fuel : nat) (l : unittest.locals),
    (forall n : string,
       List.In n rest -> is_option n = false /\ unittest.count tests n <> 0%nat) ->
    (List.length rest <= fuel)%nat ->
    unittest.parse fuel tests prog
      (unittest.mkArgs (pre ++ rest)
         (Z.of_nat (List.length (pre ++ rest))) (Z.of_nat (List.length pre))) l
    = inr (unittest.mkLocals (unittest.tests_to_run l ++ rest)
             (unittest.all l) (unittest.benchmarks l) (unittest.verbose_ l)
             (unittest.printed_ l)).
Proof.
  induction rest as [| n rest IH]; intros pre fuel l Hnames Hfuel.
  - assert (Hend : unittest.operator_bool
                     (unittest.mkArgs (pre ++ [])
                        (Z.of_nat (List.length (pre ++ [])))
                        (Z.of_nat (List.length pre))) = false).
    { unfold unittest.operator_bool. simpl. rewrite List.app_nil_r.
      apply Z.ltb_irrefl. }
    destruct l. rewrite List.app_nil_r in *.
    destruct fuel; simpl; rewrite Hend; simpl; now rewrite List.app_nil_r.
  - destruct fuel as [| fuel]; [simpl in Hfuel; lia |].
    assert (Hmore : unittest.operator_bool
                      (unittest.mkArgs (pre ++ n :: rest)
                         (Z.of_nat (List.length (pre ++ n :: rest)))
                         (Z.of_nat (List.length pre))) = true).
    { unfold unittest.operator_bool. simpl.
      rewrite List.length_app. simpl. apply Z.ltb_lt. lia. }
    rewrite (parse_round fuel tests prog _ l Hmore). cbv zeta.
    assert (Hcur : unittest.current
                     (unittest.mkArgs (pre ++ n :: rest)
                        (Z.of_nat (List.length (pre ++ n :: rest)))
                        (Z.of_nat (List.length pre))) = n).
    { unfold unittest.current. simpl. rewrite Nat2Z.id.
      apply List.nth_middle. }
    rewrite Hcur.
    destruct (Hnames n (or_introl eq_refl)) as [Hopt Hreg].
    destruct (not_option n Hopt) as (-> & -> & -> & -> & ->).
    apply Nat.eqb_neq in Hreg. rewrite Hreg.
    unfold unittest.advance. simpl unittest.argv_. simpl unittest.argc_.
    simpl unittest.index_.
    replace (pre ++ n :: rest)%list with ((pre ++ [n]) ++ rest)%list
      by (now rewrite <- List.app_assoc).
    replace (Z.of_nat (List.length pre) + 1)
      with (Z.of_nat (List.length (pre ++ [n])))
      by (rewrite List.length_app; simpl; lia).
    rewrite IH.
    + simpl. now rewrite <- List.app_assoc.
    + intros m Hm. apply Hnames. now right.
    + simpl in Hfuel. lia.
Qed.

(** X18.  When the command line consists of names of registered tests
    (none of them spelled like an option), [run] runs exactly these tests,
    in the order given and as often as they are named, and returns 0; the
    default selection plays no part.  (Stated for tests that let no foreign
    exception out.) *)
Theorem run_named_in_order :
  forall (fuel : nat) (tests : unittest.registry) (seconds : nat -> string)
         (prog : string) (names : list string),
    contained tests ->
    names <> [] ->
    (forall n : string,
       List.In n names ->
       is_option n = false /\ unittest.count tests n <> 0%nat) ->
    (List.length names <= fuel)%nat ->
    ran_of (unittest.run fuel tests seconds
              (Z.of_nat (List.length (prog :: names))) (prog :: names))
      = Some names
    /\ code_of (unittest.run fuel tests seconds
                  (Z.of_nat (List.length (prog :: names))) (prog :: names))
      = Some 0.
Proof.
  intros fuel tests seconds prog names Hcontained Hnonempty Hnames Hfuel.
  unfold unittest.run, unittest.Args_.
  change (prog :: names) with ([prog] ++ names)%list.
  change 1 with (Z.of_nat (List.length [prog])).
  rewrite (parse_names tests _ names [prog] fuel _ Hnames Hfuel).
  simpl unittest.tests_to_run. simpl unittest.printed_.
  destruct names as [| n names']; [contradiction |].
  destruct (execute_contained tests seconds (n :: names') Hcontained) with
    (printed := @nil unittest.line) (ran := @nil string) as [p Hp].
  - intros m Hm. now apply Hnames.
  - rewrite Hp. split; reflexivity.
Qed.

(** The same test named twice is run twice. *)
Lemma run_named_in_order_witness :
  let tests := [("a", (0, unittest.returns_normally));
                ("b", (unittest.LARGE_TEST, unittest.throws_error 9 "x"))] in
  ran_of (unittest.run 3 tests (fun _ => "0") 4 ["unittest"; "b"; "a"; "b"])
    = Some ["b"; "a"; "b"].
Proof.
  intros tests.
  assert (Hcontained : contained tests).
  { intros name flags. unfold tests. cbn [unittest.find].
    destruct (String.eqb "a" name); [discriminate |].
    destruct (String.eqb "b" name); discriminate. }
  destruct (run_named_in_order 3 tests (fun _ => "0") "unittest"
              ["b"; "a"; "b"] Hcontained) as [Hran _].
  - discriminate.
  - intros n [<- | [<- | [<- | []]]]; split;
      solve [reflexivity | discriminate].
  - simpl. lia.
  - exact Hran.
Defined.

(** * More on statements and transactions *)

(** X19.  What a caller can catch from resolving a transaction: an [Error]
    thrown by [commit()] says "commit failed" and never carries [SQLITE_OK]
    or [SQLITE_BUSY] (busy is retried, not reported); an [Error] thrown by
    [rollback()] says "rollback failed" and never carries [SQLITE_OK].  In
    both cases the object is as it was before the call. *)
Theorem resolution_errors :
  forall (fuel : nat) (t : Transaction.t) (w : world) (e : Error)
         (s' : Transaction.state),
    (Transaction.commit fuel (t, w) = Throws e s' ->
       code e <> SQLITE_OK /\ code e <> SQLITE_BUSY
       /\ what e = "commit failed" /\ fst s' = t)
    /\ (Transaction.rollback (t, w) = Throws e s' ->
       code e <> SQLITE_OK /\ what e = "rollback failed" /\ fst s' = t).
Proof.
  intros fuel t w e s'. split.
  - unfold Transaction.commit, bind. intros H.
    pose proof (try_commit_outcomes fuel true t w) as Hout.
    destruct (Transaction.try_commit fuel true (t, w))
      as [b s | e' [t' w'] | |]; try discriminate.
    injection H as -> <-.
    destruct Hout as (_ & -> & Hok & Hbusy & Hwhat).
    repeat split; assumption.
  - unfold Transaction.rollback, bind, Transaction.this, Transaction.lift.
    simpl.
    destruct (exec_returns (Transaction.db_ t) "ROLLBACK;" w)
      as (res & w' & Hexec & _).
    rewrite Hexec.
    destruct (res =? SQLITE_OK) eqn:Hres; simpl; [discriminate |].
    intros H. injection H as <- <-. simpl.
    apply Z.eqb_neq in Hres. repeat split. exact Hres.
Qed.

(** A COMMIT refused with [SQLITE_ERROR] after a busy round: the busy code
    is not what the caller sees. *)
Lemma resolution_errors_witness :
  let t := Transaction.mk toy_db false in
  let w := fresh [] [SQLITE_BUSY; SQLITE_ERROR] in
  let round := [sqlite3_prepare_v2 toy_db "COMMIT;" (-1);
                sqlite3_step toy_stmt; sqlite3_finalize toy_stmt] in
  Transaction.commit 2 (t, w)
    = Throws (mkError SQLITE_ERROR "commit failed")
        (t, World (engine w) (round ++ round)%list)
  /\ SQLITE_ERROR <> SQLITE_BUSY.
Proof.
  intros t w round.
  assert (H : Transaction.commit 2 (t, w)
              = Throws (mkError SQLITE_ERROR "commit failed")
                  (t, World (engine w) (round ++ round)%list))
    by reflexivity.
  destruct (resolution_errors 2 t w
              (mkError SQLITE_ERROR "commit failed")
              (t, World (engine w) (round ++ round)%list)) as [Hcommit _].
  destruct (Hcommit H) as (_ & Hbusy & _).
  split; [exact H | exact Hbusy].
Defined.

(** X20.  [size()] returns the column count the engine reports, and every
    index below it is accepted by [operator[]] on a statement that holds a
    handle, for as long as the engine reports that count: the loop
    [for (i = 0; i < row.size(); ++i) row[i]] of the unit test never
    throws. *)
Theorem subscript_below_size :
  forall (st : Statement.t) (w : world),
    let count := sqlite3_column_count (Statement.stmt_ st) in
    0 <= answer w count < 2 ^ 31 ->
    Statement.size st w = Returns (answer w count) (after w count)
    /\ (forall (w' : world) (i : Z),
          is_null (Statement.stmt_ st) = false ->
          answer w' count = answer w count ->
          0 <= i < answer w count ->
          Statement.operator_subscript st i w'
            = Returns (Value.mk (Statement.stmt_ st) i) (after w' count)).
Proof.
  intros st w count Hcount. split.
  - unfold Statement.size. rewrite bind_sqlite3. fold count.
    unfold ret. now rewrite (to_size_t_small _ Hcount).
  - intros w' i Hnull Hsame Hi.
    unfold Statement.operator_subscript. rewrite Hnull.
    rewrite bind_sqlite3. fold count. rewrite Hsame.
    rewrite to_int_small by lia.
    destruct (i >=? answer w count) eqn:E; [| reflexivity].
    apply Z.geb_le in E. lia.
Qed.

Lemma subscript_below_size_witness :
  let st := Statement.mk toy_select in
  let w := fresh ["x"] [] in
  Statement.size st w = Returns 1 (after w (sqlite3_column_count toy_select))
  /\ Statement.operator_subscript st 0
       (after w (sqlite3_column_count toy_select))
     = Returns (Value.mk toy_select 0)
         (after (after w (sqlite3_column_count toy_select))
            (sqlite3_column_count toy_select)).
Proof.
  intros st w.
  destruct (subscript_below_size st w) as [Hsize Hindex].
  - vm_compute. split; [discriminate | reflexivity].
  - split; [exact Hsize |].
    apply Hindex; [reflexivity | reflexivity |].
    vm_compute. split; [discriminate | reflexivity].
Defined.

(** X21.  The lookup of a parameter name sees the name only up to its first
    zero byte.  A name with bytes after a zero byte is resolved, and its
    value bound, exactly as the name cut there: the same calls reach the
    engine and the call returns or throws alike; when the engine knows the
    cut name, the two calls end in the very same way.  When it does not,
    both throw the unknown-parameter [Error], and the message [what()]
    shows ends at the zero byte as well: it gives the name up to there and
    lacks the closing quote. *)
Theorem bind_name_cut_at_zero_byte :
  forall (st : Statement.t) (name junk : string) (x : Statement.value)
         (w : world),
    has_nul name = false ->
    let lookup := sqlite3_bind_parameter_index (Statement.stmt_ st) name in
    final_world (Statement.bind_name st (name ++ String NUL junk) x w)
      = final_world (Statement.bind_name st name x w)
    /\ throws (Statement.bind_name st (name ++ String NUL junk) x w)
      = throws (Statement.bind_name st name x w)
    /\ (forall w' : world,
          Statement.bind_name st name x w = Returns tt w' ->
          Statement.bind_name st (name ++ String NUL junk) x w
            = Returns tt w')
    /\ (answer w lookup <> 0 ->
        Statement.bind_name st (name ++ String NUL junk) x w
          = Statement.bind_name st name x w)
    /\ (answer w lookup = 0 ->
        Statement.bind_name st name x w
          = Throws (mkError SQLITE_ERROR
                      ("unknown parameter name '" ++ name ++ "'"))
              (after w lookup)
        /\ Statement.bind_name st (name ++ String NUL junk) x w
          = Throws (mkError SQLITE_ERROR
                      ("unknown parameter name '" ++ name))
              (after w lookup)).
Proof.
  intros st name junk x w Hname lookup.
  pose proof (c_str_spelled name (Some junk) Hname) as Hcut.
  pose proof (c_str_spelled name None Hname) as Hwhole.
  pose proof (unknown_message name (Some junk) Hname) as Hmcut.
  pose proof (unknown_message name None Hname) as Hmwhole.
  simpl spelled in *. unfold unknown_parameter in *.
  unfold Statement.bind_name. rewrite !bind_sqlite3.
  rewrite Hcut, Hwhole, Hmcut, Hmwhole. fold lookup.
  destruct (answer w lookup =? 0) eqn:Hn.
  - apply Z.eqb_eq in Hn.
    split; [reflexivity | split; [reflexivity | split; [| split]]].
    + intros w' H. discriminate H.
    + intros Hnz. contradiction.
    + intros _. split; reflexivity.
  - apply Z.eqb_neq in Hn.
    split; [reflexivity | split; [reflexivity | split; [| split]]].
    + intros w' H. exact H.
    + intros _. reflexivity.
    + intros H0. contradiction.
Qed.

(** The small engine knows [":a"] and does not know [":b"]. *)
Lemma bind_name_cut_at_zero_byte_witness :
  let st := Statement.mk toy_select in
  let w := fresh [] [] in
  Statement.bind_name st (":a" ++ String NUL "bc") (Statement.of_int32 3) w
    = Returns tt
        (after (after w (sqlite3_bind_parameter_index toy_select ":a"))
           (sqlite3_bind_int toy_select 1 3))
  /\ Statement.bind_name st (":b" ++ String NUL "bc") (Statement.of_int32 3) w
    = Throws (mkError SQLITE_ERROR "unknown parameter name ':b")
        (after w (sqlite3_bind_parameter_index toy_select ":b")).
Proof.
  intros st w. split.
  - destruct (bind_name_cut_at_zero_byte st ":a" "bc" (Statement.of_int32 3) w)
      as (_ & _ & Hreturns & _).
    + reflexivity.
    + apply Hreturns. reflexivity.
  - destruct (bind_name_cut_at_zero_byte st ":b" "bc" (Statement.of_int32 3) w)
      as (_ & _ & _ & _ & Hunknown).
    + reflexivity.
    + destruct Hunknown as [_ Hcut]; [reflexivity | exact Hcut].
Defined.
